(** * sleeper-sdk: the request-dispatch core and its accessors

    A shallow embedding of [src/http-client.ts] (class [HttpClient]), of the
    fetch-then-filter accessors of [player.service.ts] and
    [draft.service.ts], and of the helpers of [sleeper-sdk.ts], together
    with the properties the specification states about them.

    Conventions of the embedding.
    - A TypeScript [number] is a [Z]: every number the modelled code
      handles (status codes, retry counts, millisecond delays, ranks) is
      an integer.
    - [x?: T] and [T | undefined] are [option T]; [None] is [undefined].
    - A JavaScript string is a [string] holding its UTF-8 bytes.
    - An [async] method is a function on an explicit [World]: the clock,
      the pacing field of the client, what the network will answer, and a
      ghost trace of what the client did.  A rejected promise is the
      [Throw] completion. *)

From Stdlib Require Import ZArith List String Ascii Bool Lia Arith.
From Stdlib Require Import Numbers.DecimalString.
From Stdlib Require Import Sorting.Sorted Sorting.Permutation.
Import ListNotations.

Open Scope string_scope.
Open Scope list_scope.
Open Scope Z_scope.

(** ** JavaScript values the code tests for truthiness *)

(** [s || d] on a possibly undefined string: [undefined] and [''] are
    falsy. *)
Definition or_string (s : option string) (d : string) : string :=
  match s with
  | None => d
  | Some EmptyString => d
  | Some m => m
  end.

(** [n || d] on a possibly undefined number: [undefined] and [0] are
    falsy. *)
Definition or_number (n : option Z) (d : Z) : Z :=
  match n with
  | None => d
  | Some v => if v =? 0 then d else v
  end.

(** [x === k] where [x] may be undefined. *)
Definition strict_eq_number (x : option Z) (k : Z) : bool :=
  match x with
  | None => false
  | Some v => v =? k
  end.

(** [x >= k] where [x] may be undefined: [undefined >= k] is [NaN >= k],
    which is false. *)
Definition ge_number (x : option Z) (k : Z) : bool :=
  match x with
  | None => false
  | Some v => k <=? v
  end.

(** ** Errors: what axios raises and what the client surfaces *)

Section Errors.

(** The type of a response body ([any] in the source). *)
Variable Any : Type.

(** [error.response] of an axios error. *)
Record ErrorResponse := mkErrorResponse {
  er_status : Z;
  er_data : Any
}.

(** The failure axios hands to the response interceptor. *)
Record AxiosError := mkAxiosError {
  ae_response : option ErrorResponse;
  ae_message : option string
}.

(** [SleeperError] of [types.ts]. *)
Record SleeperError := mkSleeperError {
  status : Z;
  message : string;
  details : option Any
}.

Definition rate_limit_message : string :=
  "Rate limit exceeded. Please slow down your requests.".
Definition not_found_message : string := "Resource not found.".
Definition server_error_message : string :=
  "Sleeper API server error. Please try again later.".

(** [error.response?.status] *)
Definition response_status (error : AxiosError) : option Z :=
  option_map er_status (ae_response error).

(** The rejection handler of the response interceptor
    ([setupInterceptors], the second [use]). *)
Definition responseErrorInterceptor (error : AxiosError) : SleeperError :=
  let sleeperError :=
    {| status := or_number (response_status error) 0;
       message := or_string (ae_message error) "Unknown error";
       details := option_map er_data (ae_response error) |} in
  if strict_eq_number (response_status error) 429 then
    {| status := status sleeperError;
       message := rate_limit_message;
       details := details sleeperError |}
  else if strict_eq_number (response_status error) 404 then
    {| status := status sleeperError;
       message := not_found_message;
       details := details sleeperError |}
  else if ge_number (response_status error) 500 then
    {| status := status sleeperError;
       message := server_error_message;
       details := details sleeperError |}
  else sleeperError.

(** The status the classifier is specified to report. *)
Definition received_status (error : AxiosError) : Z :=
  match ae_response error with
  | Some r => er_status r
  | None => 0
  end.

End Errors.

Arguments mkErrorResponse {Any}.
Arguments er_status {Any}.
Arguments er_data {Any}.
Arguments mkAxiosError {Any}.
Arguments ae_response {Any}.
Arguments ae_message {Any}.
Arguments mkSleeperError {Any}.
Arguments status {Any}.
Arguments message {Any}.
Arguments details {Any}.
Arguments response_status {Any}.
Arguments responseErrorInterceptor {Any}.
Arguments received_status {Any}.

(** ** Completions of asynchronous calls *)

(** How an awaited promise settles: fulfilled with a value or rejected
    with a thrown one. *)
Inductive Completion (E A : Type) : Type :=
| Return (a : A)
| Throw (e : E).

Arguments Return {E A}.
Arguments Throw {E A}.

(** ** The dispatch core: [HttpClient] *)

Inductive Method := GET | POST | PUT | DELETE.

(** What the client did, in the order it did it (ghost state). *)
Inductive Action :=
| Pace (ms : Z)                      (* [sleep] called by [enforceRateLimit] *)
| Send (m : Method) (url : string)   (* the request leaves for the network *)
| Backoff (ms : Z).                  (* [sleep] called by [executeWithRetry] *)

Definition is_send (e : Z * Action) : bool :=
  match snd e with Send _ _ => true | _ => false end.

(** The clock readings at which requests left. *)
Definition send_times (tr : list (Z * Action)) : list Z :=
  map fst (filter is_send tr).

(** The delays of the backoff waits. *)
Definition backoffs (tr : list (Z * Action)) : list Z :=
  flat_map (fun e => match snd e with Backoff ms => [ms] | _ => [] end) tr.

(** The trace without the pacer's waits and without clock readings. *)
Definition control (tr : list (Z * Action)) : list Action :=
  flat_map (fun e => match snd e with Pace _ => [] | a => [a] end) tr.

(** [HttpClientConfig] *)
Record HttpClientConfig := mkConfig {
  baseURL : option string;
  timeout : option Z;
  retries : option Z;
  retryDelay : option Z
}.

(** A destructuring default: [x = d] in a pattern takes [d] when the
    property is undefined. *)
Definition default {A : Type} (d : A) (x : option A) : A :=
  match x with
  | Some v => v
  | None => d
  end.

(** The read-only fields the constructor of [HttpClient] sets; the axios
    instance keeps [baseURL] and [timeout]. *)
Record HttpClient := mkHttpClient {
  client_baseURL : string;
  client_timeout : Z;
  this_retries : Z;
  this_retryDelay : Z;
  minRequestInterval : Z
}.

(** [new HttpClient(config)] *)
Definition newHttpClient (config : HttpClientConfig) : HttpClient :=
  {| client_baseURL := default "https://api.sleeper.app/v1" (baseURL config);
     client_timeout := default 10000 (timeout config);
     this_retries := default 3 (retries config);
     this_retryDelay := default 1000 (retryDelay config);
     minRequestInterval := 60 |}.

(** The first part of [enforceRateLimit], up to its only suspension
    point: the delay to sleep for, if any. *)
Definition pacing_delay (this : HttpClient) (now lastRequestTime : Z)
  : option Z :=
  let timeSinceLastRequest := now - lastRequestTime in
  if timeSinceLastRequest <? minRequestInterval this
  then Some (minRequestInterval this - timeSinceLastRequest)
  else None.

(** The mutable state: [Date.now()], the pacing field of the client,
    counters into the environment, and the ghost trace. *)
Record World := mkWorld {
  clock : Z;
  lastRequestTime : Z;
  exchanges : nat;
  timers : nat;
  trace : list (Z * Action)
}.

(** Record an action at the current clock reading. *)
Definition emit (a : Action) (w : World) : World :=
  {| clock := clock w;
     lastRequestTime := lastRequestTime w;
     exchanges := exchanges w;
     timers := timers w;
     trace := trace w ++ [(clock w, a)] |}.

(** [this.lastRequestTime = Date.now()] *)
Definition stamp (w : World) : World :=
  {| clock := clock w;
     lastRequestTime := clock w;
     exchanges := exchanges w;
     timers := timers w;
     trace := trace w |}.

Section Dispatch.

(** [T] is the type the caller reads the response body at, [Any] the
    type of an error body. *)
Variables T Any : Type.

(** [AxiosResponse<T>], as far as the client reads it. *)
Record AxiosResponse := mkAxiosResponse {
  response_status_code : Z;
  data : T
}.

(** The environment of one run: what axios settles the [i]-th exchange
    with (a response it accepts, or a failure), how long that exchange
    takes, and how late the [k]-th timer fires. *)
Record Network := mkNetwork {
  answer : nat -> Method -> string -> AxiosError Any + AxiosResponse;
  latency : nat -> nat;
  lag : nat -> nat
}.

Variable net : Network.
Variable this : HttpClient.

(** [await this.sleep(ms)]: the timer fires [ms] milliseconds later, or
    later still. *)
Definition sleep (ms : Z) (w : World) : World :=
  {| clock := clock w + Z.max ms 0 + Z.of_nat (lag net (timers w));
     lastRequestTime := lastRequestTime w;
     exchanges := exchanges w;
     timers := S (timers w);
     trace := trace w |}.

(** [enforceRateLimit], run without interleaving. *)
Definition enforceRateLimit (w : World) : World :=
  let now := clock w in
  match pacing_delay this now (lastRequestTime w) with
  | Some delay => stamp (sleep delay (emit (Pace delay) w))
  | None => stamp w
  end.

(** The exchange itself: the request leaves, and the answer arrives
    [latency] later. *)
Definition exchange (m : Method) (url : string) (w : World)
  : (AxiosError Any + AxiosResponse) * World :=
  let i := exchanges w in
  let w1 := emit (Send m url) w in
  (answer net i m url,
   {| clock := clock w1 + Z.of_nat (latency net i);
      lastRequestTime := lastRequestTime w1;
      exchanges := S i;
      timers := timers w1;
      trace := trace w1 |}).

(** [this.client.get(url)] and its siblings: the request interceptor
    ([enforceRateLimit]), the exchange, the response interceptor
    (identity on a response, [responseErrorInterceptor] on a
    failure). *)
Definition client_request (m : Method) (url : string) (w : World)
  : Completion (SleeperError Any) AxiosResponse * World :=
  let w1 := enforceRateLimit w in
  let (settled, w2) := exchange m url w1 in
  match settled with
  | inr response => (Return response, w2)
  | inl error => (Throw (responseErrorInterceptor error), w2)
  end.

(** The test of the first [if] in the [catch] of [executeWithRetry]. *)
Definition client_error (lastError : SleeperError Any) : bool :=
  (400 <=? status lastError) && (status lastError <? 500)
  && negb (status lastError =? 429).

(** The [for] loop of [executeWithRetry] from [attempt] on.  [fuel]
    bounds the iterations; [executeWithRetry] gives it more than the
    loop can use. *)
Fixpoint retry_from (fuel : nat)
    (request : World -> Completion (SleeperError Any) AxiosResponse * World)
    (attempt : Z) (lastError : option (SleeperError Any)) (w : World)
  : Completion (option (SleeperError Any)) T * World :=
  match fuel with
  | O => (Throw lastError, w)
  | S fuel' =>
      if attempt <=? this_retries this then
        match request w with
        | (Return response, w1) => (Return (data response), w1)
        | (Throw error, w1) =>
            let lastError := error in
            if client_error lastError then (Throw (Some lastError), w1)
            else if attempt =? this_retries this
            then (Throw (Some lastError), w1)
            else
              let delay := this_retryDelay this * 2 ^ attempt in
              let w2 := sleep delay (emit (Backoff delay) w1) in
              retry_from fuel' request (attempt + 1) (Some lastError) w2
        end
      else (Throw lastError, w)
  end.

(** [executeWithRetry(request)]; the loop body runs for
    [attempt = 0 .. retries], and one more test leaves the loop. *)
Definition executeWithRetry
    (request : World -> Completion (SleeperError Any) AxiosResponse * World)
    (w : World) : Completion (option (SleeperError Any)) T * World :=
  retry_from (S (Z.to_nat (this_retries this + 1))) request 0 None w.

(** The shape [get], [post], [put] and [delete] share:
    [this.executeWithRetry(() => this.client.VERB(url, ...))]. *)
Definition call (m : Method) (url : string) :=
  executeWithRetry (client_request m url).

(** [get], [post], [put], [delete]; request bodies are opaque to the
    core and left out. *)
Definition get (url : string) := call GET url.
Definition post (url : string) := call POST url.
Definition put (url : string) := call PUT url.
Definition delete (url : string) := call DELETE url.

End Dispatch.

Arguments mkAxiosResponse {T}.
Arguments response_status_code {T}.
Arguments data {T}.
Arguments mkNetwork {T Any}.
Arguments answer {T Any}.
Arguments latency {T Any}.
Arguments lag {T Any}.
Arguments sleep {T Any}.
Arguments enforceRateLimit {T Any}.
Arguments exchange {T Any}.
Arguments client_request {T Any}.
Arguments client_error {Any}.
Arguments retry_from {T Any}.
Arguments executeWithRetry {T Any}.
Arguments call {T Any}.
Arguments get {T Any}.
Arguments post {T Any}.
Arguments put {T Any}.
Arguments delete {T Any}.

(** ** The pacer under interleaving

    [enforceRateLimit] is [async]: between its read of
    [this.lastRequestTime] and its write there is one suspension point,
    [await this.sleep(delay)], taken only when it must wait.  Calls on one
    client that are in flight together ([Promise.all] in
    [LeagueService.getLeagueData], [DraftService.getDraftData] and
    [getMatchupsForWeekRange]) interleave there and nowhere else: the
    event loop runs each piece to completion. *)

(** Where one caller of [enforceRateLimit] stands. *)
Inductive Caller :=
| Waiting                 (* the request interceptor has not run yet *)
| Sleeping (due : Z)      (* suspended in [sleep]; the timer is due at [due] *)
| Sent (at_time : Z).     (* [enforceRateLimit] returned; the request left *)

(** The client field and the clock the callers share. *)
Record Pacer := mkPacer {
  pacer_clock : Z;
  pacer_lastRequestTime : Z;
  callers : list Caller
}.

(** What the event loop does next: let time pass, or run the next piece
    of caller [i]. *)
Inductive Turn :=
| Elapse (ms : nat)
| Run (i : nat).

Fixpoint set_caller (i : nat) (c : Caller) (cs : list Caller) : list Caller :=
  match cs, i with
  | [], _ => []
  | _ :: cs', O => c :: cs'
  | c' :: cs', S i' => c' :: set_caller i' c cs'
  end.

(** One piece of [enforceRateLimit] for caller [i], run to its next
    suspension point. *)
Definition run_caller (this : HttpClient) (i : nat) (p : Pacer) : Pacer :=
  let now := pacer_clock p in
  match nth_error (callers p) i with
  | Some Waiting =>
      match pacing_delay this now (pacer_lastRequestTime p) with
      | Some delay =>
          {| pacer_clock := now;
             pacer_lastRequestTime := pacer_lastRequestTime p;
             callers := set_caller i (Sleeping (now + Z.max delay 0)) (callers p) |}
      | None =>
          {| pacer_clock := now;
             pacer_lastRequestTime := now;
             callers := set_caller i (Sent now) (callers p) |}
      end
  | Some (Sleeping due) =>
      if due <=? now then
        {| pacer_clock := now;
           pacer_lastRequestTime := now;
           callers := set_caller i (Sent now) (callers p) |}
      else p
  | _ => p
  end.

Definition turn (this : HttpClient) (t : Turn) (p : Pacer) : Pacer :=
  match t with
  | Elapse ms =>
      {| pacer_clock := pacer_clock p + Z.of_nat ms;
         pacer_lastRequestTime := pacer_lastRequestTime p;
         callers := callers p |}
  | Run i => run_caller this i p
  end.

Definition interleave (this : HttpClient) (schedule : list Turn) (p : Pacer)
  : Pacer :=
  fold_left (fun p t => turn this t p) schedule p.

(** The clock readings at which requests left, in caller order. *)
Definition sent_times (p : Pacer) : list Z :=
  flat_map (fun c => match c with Sent t => [t] | _ => [] end) (callers p).

(** Adjacent elements are at least [gap] apart. *)
Fixpoint spaced (gap : Z) (times : list Z) : Prop :=
  match times with
  | t1 :: ((t2 :: _) as rest) => t1 + gap <= t2 /\ spaced gap rest
  | _ => True
  end.

(** ** [buildQueryString] *)

(** A value of [string | number | boolean | undefined]. *)
Inductive ParamValue :=
| PString (s : string)
| PNumber (n : Z)
| PBoolean (b : bool)
| PUndefined.

(** [String(value)] *)
Definition String_of (value : ParamValue) : string :=
  match value with
  | PString s => s
  | PNumber n => NilZero.string_of_int (Z.to_int n)
  | PBoolean true => "true"
  | PBoolean false => "false"
  | PUndefined => "undefined"
  end.

(** The characters [encodeURIComponent] leaves alone:
    [A-Z a-z 0-9 - _ . ! ~ * ' ( )]. *)
Definition unreserved (c : ascii) : bool :=
  let n := nat_of_ascii c in
  ((65 <=? n) && (n <=? 90) || (97 <=? n) && (n <=? 122)
   || (48 <=? n) && (n <=? 57))%nat
  || existsb (Ascii.eqb c)
       ["-"; "_"; "."; "!"; "~"; "*"; "'"; "("; ")"]%char.

Definition hex_digit (n : nat) : ascii :=
  match String.get n "0123456789ABCDEF" with
  | Some c => c
  | None => "0"%char
  end.

(** [%XX] for one byte. *)
Definition percent_byte (c : ascii) : string :=
  let n := nat_of_ascii c in
  String "%" (String (hex_digit (n / 16)) (String (hex_digit (n mod 16)) "")).

(** [encodeURIComponent] on the UTF-8 bytes of a well-formed string. *)
Fixpoint encodeURIComponent (s : string) : string :=
  match s with
  | EmptyString => EmptyString
  | String c rest =>
      if unreserved c then String c (encodeURIComponent rest)
      else (percent_byte c ++ encodeURIComponent rest)%string
  end.

Definition is_defined (value : ParamValue) : bool :=
  match value with
  | PUndefined => false
  | _ => true
  end.

(** A JavaScript string is truthy unless it is empty. *)
Definition truthy_string (s : string) : bool :=
  match s with
  | EmptyString => false
  | _ => true
  end.

(** [buildQueryString(params)]; [params] is given as [Object.entries]
    lists it, in iteration order. *)
Definition buildQueryString (params : list (string * ParamValue)) : string :=
  let filteredParams :=
    String.concat "&"
      (map (fun '(key, value) =>
              (encodeURIComponent key ++ "="
               ++ encodeURIComponent (String_of value))%string)
         (filter (fun '(_, value) => is_defined value) params)) in
  if truthy_string filteredParams then ("?" ++ filteredParams)%string else "".

(** The query string as the specification words it: nothing when no
    defined parameter remains, else [?] and the [&]-joined [k=v] pairs. *)
Definition encoded_pair (kv : string * ParamValue) : string :=
  (encodeURIComponent (fst kv) ++ "=" ++ encodeURIComponent (String_of (snd kv)))%string.

Definition query_string_of_spec (params : list (string * ParamValue)) : string :=
  match filter (fun kv => is_defined (snd kv)) params with
  | [] => ""
  | kept => ("?" ++ String.concat "&" (map encoded_pair kept))%string
  end.

(** ** Resource accessors *)

(** [const x = await c; k x] inside an [async] method: a rejection of [c]
    rejects the method with the same value. *)
Definition await {W E A B : Type} (c : W -> Completion E A * W)
    (k : A -> W -> Completion E B * W) (w : W) : Completion E B * W :=
  match c w with
  | (Return a, w1) => k a w1
  | (Throw e, w1) => (Throw e, w1)
  end.

(** [return v] of an [async] method. *)
Definition resolve {W E A : Type} (v : A) (w : W) : Completion E A * W :=
  (Return v, w).

Notation "'let*' x ':=' c 'in' k" := (await c (fun x => k))
  (at level 10, x name, c at level 100, k at level 200).

(** [Sport] of [types.ts] and its spelling in a path. *)
Inductive Sport := nfl | nba | lcs.

Definition sport_path (sport : Sport) : string :=
  match sport with
  | nfl => "nfl"
  | nba => "nba"
  | lcs => "lcs"
  end.

(** The fields of [Player] the accessors below read. *)
Record Player := mkPlayer {
  player_id : string;
  position : string;
  fantasy_positions : list string;
  search_rank : option Z
}.

(** [PlayersResponse]: an object keyed by player id, as the list of its
    entries in iteration order. *)
Definition PlayersResponse := list (string * Player).

Definition Object_values {A : Type} (o : list (string * A)) : list A :=
  map snd o.

(** [xs.includes(x)] on strings. *)
Definition includes (xs : list string) (x : string) : bool :=
  existsb (String.eqb x) xs.

(** Truthiness of an optional number. *)
Definition truthy_number (n : option Z) : bool :=
  match n with
  | Some v => negb (v =? 0)
  | None => false
  end.

(** The comparator of the [sort] calls of [PlayerService]. *)
Definition by_search_rank (a b : Player) : Z :=
  if truthy_number (search_rank a) && truthy_number (search_rank b)
  then default 0 (search_rank a) - default 0 (search_rank b)
  else if truthy_number (search_rank a) then -1
  else if truthy_number (search_rank b) then 1
  else 0.

(** [Array.prototype.sort(compare)], which is stable: insertion from the
    right keeps equal elements in their order. *)
Fixpoint insert_by {A : Type} (compare : A -> A -> Z) (x : A)
    (sorted : list A) : list A :=
  match sorted with
  | [] => [x]
  | y :: rest =>
      if compare x y <=? 0 then x :: sorted
      else y :: insert_by compare x rest
  end.

Definition Array_sort {A : Type} (compare : A -> A -> Z) (xs : list A)
  : list A :=
  fold_right (insert_by compare) [] xs.

(** The test of the [if] in the loop of [getPlayersByPosition]. *)
Definition at_position (position' : string) (player : Player) : bool :=
  String.eqb (position player) position'
  || includes (fantasy_positions player) position'.

(** The [for ... of] loop shared by the accessors of [PlayerService]:
    stop at [limit] matches, else keep the players that pass [test]. *)
Fixpoint collect_matches (test : Player -> bool) (limit : Z)
    (players : list Player) (matches : list Player) : list Player :=
  match players with
  | [] => matches
  | player :: rest =>
      if limit <=? Z.of_nat (List.length matches) then matches
      else if test player
      then collect_matches test limit rest (matches ++ [player])
      else collect_matches test limit rest matches
  end.

Section PlayerService.

Variable Any : Type.
Variable net : Network PlayersResponse Any.
Variable httpClient : HttpClient.

(** [getAllPlayers(sport)] *)
Definition getAllPlayers (sport : Sport) :=
  get net httpClient ("/players/" ++ sport_path sport)%string.

(** [getPlayersByPosition(sport, position, limit = 50)] *)
Definition getPlayersByPosition (sport : Sport) (position' : string)
    (limit : option Z) :=
  let limit := default 50 limit in
  let* allPlayers := getAllPlayers sport in
  let matches :=
    collect_matches (at_position position') limit
      (Object_values allPlayers) [] in
  resolve (Array_sort by_search_rank matches).

End PlayerService.

Arguments getAllPlayers {Any}.
Arguments getPlayersByPosition {Any}.

(** The fields of [DraftPick] the accessors below read. *)
Record DraftPick := mkDraftPick {
  pick_player_id : string;
  picked_by : string;
  roster_id : Z;
  round : Z;
  pick_no : Z
}.

Section DraftService.

Variable Any : Type.
Variable net : Network (list DraftPick) Any.
Variable httpClient : HttpClient.

(** [getDraftPicks(draftId)] *)
Definition getDraftPicks (draftId : string) :=
  get net httpClient ("/draft/" ++ draftId ++ "/picks")%string.

(** [getPicksByRound(draftId, round)] *)
Definition getPicksByRound (draftId : string) (round' : Z) :=
  let* picks := getDraftPicks draftId in
  resolve (filter (fun pick => round pick =? round') picks).

End DraftService.

Arguments getDraftPicks {Any}.
Arguments getPicksByRound {Any}.

(** ** [SleeperSDK] *)

(** The private field of [SleeperSDK]; the services only hold the same
    client. *)
Record SleeperSDK := mkSleeperSDK {
  sdk_httpClient : HttpClient
}.

(** [new SleeperSDK(config)] *)
Definition newSleeperSDK (config : HttpClientConfig) : SleeperSDK :=
  {| sdk_httpClient := newHttpClient config |}.

(** [getClientConfig()] *)
Definition getClientConfig (sdk : SleeperSDK) : HttpClientConfig :=
  {| baseURL := Some "https://api.sleeper.app/v1";
     timeout := Some 10000;
     retries := Some 3;
     retryDelay := Some 1000 |}.

(** The configuration a client really runs with. *)
Definition config_in_effect (sdk : SleeperSDK) : HttpClientConfig :=
  {| baseURL := Some (client_baseURL (sdk_httpClient sdk));
     timeout := Some (client_timeout (sdk_httpClient sdk));
     retries := Some (this_retries (sdk_httpClient sdk));
     retryDelay := Some (this_retryDelay (sdk_httpClient sdk)) |}.

(** ** Dates, in local wall-clock time

    A [Date] is kept as its local calendar fields; [getTime] follows
    ECMAScript's [MakeDay] and [MakeDate].  The offset of local time from
    UTC is taken to be the same at both dates compared. *)

Record Date := mkDate {
  fullYear : Z;
  month : Z;          (* 0 = January *)
  date : Z;           (* day of the month, from 1 *)
  msOfDay : Z
}.

Definition msPerDay : Z := 86400000.

(** ECMAScript [DayFromYear]. *)
Definition DayFromYear (y : Z) : Z :=
  365 * (y - 1970) + (y - 1969) / 4 - (y - 1901) / 100 + (y - 1601) / 400.

Definition InLeapYear (y : Z) : bool :=
  (y mod 4 =? 0) && (negb (y mod 100 =? 0) || (y mod 400 =? 0)).

Definition DaysInMonth (leap : bool) (m : Z) : Z :=
  if m =? 1 then (if leap then 29 else 28)
  else if (m =? 3) || (m =? 5) || (m =? 8) || (m =? 10) then 30
  else 31.

(** Days of the year before month [m]. *)
Definition DaysBeforeMonth (leap : bool) (m : Z) : Z :=
  fold_right Z.add 0 (map (DaysInMonth leap) (map Z.of_nat (seq 0 (Z.to_nat m)))).

Definition MakeDay (y m d : Z) : Z :=
  DayFromYear y + DaysBeforeMonth (InLeapYear y) m + d - 1.

(** [d.getTime()] *)
Definition getTime (d : Date) : Z :=
  MakeDay (fullYear d) (month d) (date d) * msPerDay + msOfDay d.

(** [new Date(year, monthIndex, day)]: midnight of that day; a year from
    0 to 99 is read as 1900 + year. *)
Definition newDate (y m d : Z) : Date :=
  {| fullYear := if (0 <=? y) && (y <=? 99) then 1900 + y else y;
     month := m; date := d; msOfDay := 0 |}.

(** A year the [Date] constructor takes as it is. *)
Definition plain_year (y : Z) : Prop := y < 0 \/ 99 < y.

(** A date the calendar has. *)
Definition valid_date (d : Date) : Prop :=
  0 <= month d <= 11
  /\ 1 <= date d <= DaysInMonth (InLeapYear (fullYear d)) (month d)
  /\ 0 <= msOfDay d < msPerDay.

(** [SleeperSDK.getEstimatedNFLWeek()], with [now] for [new Date()]. *)
Definition getEstimatedNFLWeek (now : Date) : Z :=
  let year := fullYear now in
  let seasonStart := newDate year 8 7 in
  if getTime now <? getTime seasonStart then 1
  else
    let diffTime := getTime now - getTime seasonStart in
    let diffWeeks := diffTime / (1000 * 60 * 60 * 24 * 7) in
    Z.min (Z.max (diffWeeks + 1) 1) 17.

(** ** The vocabulary of the specification *)

(** The fixed text the specification overrides the message with, by
    received status. *)
Definition override_message (received : option Z) : option string :=
  match received with
  | Some 429 => Some rate_limit_message
  | Some 404 => Some not_found_message
  | Some s => if 500 <=? s then Some server_error_message else None
  | None => None
  end.

(** The classifier as the specification words it, for a failure whose
    low-level message is [raw]. *)
Definition classified_as_specified {Any : Type} (error : AxiosError Any)
    (raw : string) : SleeperError Any :=
  {| status := received_status error;
     message := match override_message (response_status error) with
                | Some fixed => fixed
                | None => raw
                end;
     details := option_map er_data (ae_response error) |}.

(** The contract of the classifier as the specification states it: the
    message is an override or the raw message, whatever that is. *)
Definition classifier_as_stated {Any : Type} (error : AxiosError Any) : Prop :=
  forall raw, ae_message error = Some raw ->
    responseErrorInterceptor error = classified_as_specified error raw.

(** The statuses the specification calls retryable. *)
Definition retryable_status (s : Z) : Prop := s = 0 \/ s = 429 \/ 500 <= s.

(** The statuses the specification calls terminal. *)
Definition terminal_status (s : Z) : Prop := 400 <= s < 500 /\ s <> 429.

(** What a run of [k] failed, retried attempts leaves in the trace, the
    pacer's waits aside: each request, then its backoff. *)
Definition retry_script (m : Method) (url : string) (baseDelay attempt : Z)
    (k : nat) : list Action :=
  flat_map
    (fun i => [Send m url; Backoff (baseDelay * 2 ^ (attempt + Z.of_nat i))])
    (seq 0 k).

(** The number of requests that left. *)
Definition attempts (tr : list (Z * Action)) : nat :=
  List.length (send_times tr).

Definition sending (a : Action) : bool :=
  match a with Send _ _ => true | _ => false end.

Section Observations.

Variables T Any : Type.
Variable net : Network T Any.

(** The classified error of exchange [i], when axios settles it with a
    failure. *)
Definition failure_of (i : nat) (m : Method) (url : string)
  : option (SleeperError Any) :=
  match answer net i m url with
  | inl error => Some (responseErrorInterceptor error)
  | inr _ => None
  end.

(** Exchange [i] fails with a status the specification calls
    retryable. *)
Definition fails_retryably (i : nat) (m : Method) (url : string) : Prop :=
  exists e, failure_of i m url = Some e /\ retryable_status (status e).

(** Exchange [i] fails with a status that is not terminal, whatever it
    is. *)
Definition fails_not_terminally (i : nat) (m : Method) (url : string)
  : Prop :=
  exists e, failure_of i m url = Some e /\ ~ terminal_status (status e).

End Observations.

Arguments failure_of {T Any}.
Arguments fails_retryably {T Any}.
Arguments fails_not_terminally {T Any}.

(** The pacing invariant of a world: the requests that left are spaced,
    and none left after the time the client remembers. *)
Definition paced (this : HttpClient) (w : World) : Prop :=
  spaced (minRequestInterval this) (send_times (trace w))
  /\ Forall (fun t => t <= lastRequestTime w) (send_times (trace w)).

(** Requests issued one after the other on one client: each is awaited
    before the next is made. *)
Fixpoint session {T Any : Type} (net : Network T Any) (this : HttpClient)
    (requests : list (Method * string)) (w : World) : World :=
  match requests with
  | [] => w
  | (m, url) :: rest => session net this rest (snd (call net this m url w))
  end.

(** A lone caller of [enforceRateLimit] in the interleaving model, and the
    schedule of its run: it enters, and when it has to wait, its timer
    fires [late] after it is due. *)
Definition lone_caller (w : World) : Pacer :=
  {| pacer_clock := clock w;
     pacer_lastRequestTime := lastRequestTime w;
     callers := [Waiting] |}.

Definition lone_schedule (this : HttpClient) (w : World) (late : nat)
  : list Turn :=
  match pacing_delay this (clock w) (lastRequestTime w) with
  | Some delay => [Run 0; Elapse (Z.to_nat delay + late); Run 0]
  | None => [Run 0]
  end.

(** Every character is one [encodeURIComponent] may emit: an unreserved
    one or the percent sign. *)
Fixpoint url_safe (s : string) : bool :=
  match s with
  | EmptyString => true
  | String c rest => (unreserved c || Ascii.eqb c "%") && url_safe rest
  end.

Definition msPerWeek : Z := 1000 * 60 * 60 * 24 * 7.

(** September 7 of the year of [now], at midnight. *)
Definition seasonStart (now : Date) : Date := newDate (fullYear now) 8 7.

(** Whole days from September 7 of its year to [now]. *)
Definition days_into_season (now : Date) : Z :=
  MakeDay (fullYear now) (month now) (date now) - MakeDay (fullYear now) 8 7.

(** ** Concrete clients, networks and dates *)

(** A client that has sent nothing: [lastRequestTime] starts at 0. *)
Definition fresh_world (now : Z) : World :=
  {| clock := now; lastRequestTime := 0; exchanges := 0; timers := 0;
     trace := [] |}.

Definition defaultClient : HttpClient :=
  newHttpClient (mkConfig None None None None).

Definition client_with (retries' retryDelay' : Z) : HttpClient :=
  newHttpClient (mkConfig None None (Some retries') (Some retryDelay')).

(** The failure axios raises for a response with status [s]. *)
Definition status_failure (s : Z) (body : string) : AxiosError string :=
  {| ae_response := Some {| er_status := s; er_data := body |};
     ae_message := Some "Request failed" |}.

(** A server that answers every request with status [s]. *)
Definition always_failing (s : Z) : Network string string :=
  {| answer := fun _ _ _ => inl (status_failure s "body");
     latency := fun _ => 20%nat;
     lag := fun _ => 0%nat |}.

(** A server that fails once with 503 and answers from then on. *)
Definition second_succeeds : Network string string :=
  {| answer := fun i _ _ =>
       match i with
       | O => inl (status_failure 503 "down")
       | S _ => inr {| response_status_code := 200; data := "payload" |}
       end;
     latency := fun _ => 20%nat;
     lag := fun _ => 0%nat |}.

(** A failure without a response and with an empty message. *)
Definition silent_failure : AxiosError string :=
  {| ae_response := None; ae_message := Some "" |}.

(** Three calls in flight together on a fresh client, as
    [getLeagueData] issues them with [Promise.all]. *)
Definition three_callers (now : Z) : Pacer :=
  {| pacer_clock := now; pacer_lastRequestTime := 0;
     callers := [Waiting; Waiting; Waiting] |}.

(** The three request interceptors run in turn; the two timers that were
    set fire 60 ms later. *)
Definition promise_all_schedule : list Turn :=
  [Run 0; Run 1; Run 2; Elapse 60; Run 1; Run 2]%nat.

Definition some_picks : list DraftPick :=
  [ {| pick_player_id := "4035"; picked_by := "u1"; roster_id := 1;
       round := 1; pick_no := 1 |};
    {| pick_player_id := "4046"; picked_by := "u2"; roster_id := 2;
       round := 2; pick_no := 13 |} ].

Definition some_players : PlayersResponse :=
  [ ("4035", {| player_id := "4035"; position := "QB";
                fantasy_positions := ["QB"]; search_rank := Some 12 |});
    ("4046", {| player_id := "4046"; position := "RB";
                fantasy_positions := ["RB"; "WR"]; search_rank := None |}) ].

(** A server that answers every request with [body]. *)
Definition always_answering {T : Type} (body : T) : Network T string :=
  {| answer := fun _ _ _ =>
       inr {| response_status_code := 200; data := body |};
     latency := fun _ => 20%nat;
     lag := fun _ => 0%nat |}.

(** A server that answers every request with status [s], for a caller
    that reads bodies at any type. *)
Definition failing_fetch {T : Type} (s : Z) : Network T string :=
  {| answer := fun _ _ _ => inl (status_failure s "body");
     latency := fun _ => 20%nat;
     lag := fun _ => 0%nat |}.

(** A configuration that asks for five retries. *)
Definition five_retries : HttpClientConfig :=
  {| baseURL := None; timeout := None; retries := Some 5;
     retryDelay := None |}.

(** 1 October 2024, noon; 15 March 2024, noon. *)
Definition october_first : Date :=
  {| fullYear := 2024; month := 9; date := 1; msOfDay := 43200000 |}.
Definition mid_march : Date :=
  {| fullYear := 2024; month := 2; date := 15; msOfDay := 43200000 |}.

(** The last millisecond of 2024. *)
Definition years_end : Date :=
  {| fullYear := 2024; month := 11; date := 31; msOfDay := 86399999 |}.

(** * More of the code *)

(** ** Runs of the retry loop *)

(** The sum of the delays of a list of waits. *)
Definition total (delays : list Z) : Z := fold_right Z.add 0 delays.

Section Runs.

Variables T Any : Type.
Variable net : Network T Any.
Variable this : HttpClient.
Variable m : Method.
Variable url : string.

(** How a run of the retry loop that starts at [attempt] in world [w]
    ends after [j] retried failures: the exchanges before the last one
    failed without a client error, and the last one decides the result. *)
Definition run_ends (attempt : Z) (w : World) (j : nat)
    (result : Completion (option (SleeperError Any)) T) : Prop :=
  attempt + Z.of_nat j <= this_retries this
  /\ (forall i, (i < j)%nat ->
        exists e, failure_of net (exchanges w + i) m url = Some e
                  /\ client_error e = false)
  /\ match answer net (exchanges w + j) m url with
     | inr response => result = Return (data response)
     | inl error =>
         result = Throw (Some (responseErrorInterceptor error))
         /\ (client_error (responseErrorInterceptor error) = true
             \/ attempt + Z.of_nat j = this_retries this)
     end.

End Runs.

Arguments run_ends {T Any}.

(** ** Reading a query string back *)

(** The value of a hexadecimal digit, upper or lower case. *)
Definition hex_value (c : ascii) : option nat :=
  let n := nat_of_ascii c in
  if ((48 <=? n) && (n <=? 57))%nat then Some (n - 48)%nat
  else if ((65 <=? n) && (n <=? 70))%nat then Some (n - 55)%nat
  else if ((97 <=? n) && (n <=? 102))%nat then Some (n - 87)%nat
  else None.

(** [decodeURIComponent] on bytes: every [%XX] becomes the byte [XX]; a
    [%] that does not start an escape is an error ([URIError]). *)
Fixpoint decodeURIComponent (s : string) : option string :=
  match s with
  | EmptyString => Some EmptyString
  | String "%" (String h (String l rest)) =>
      match hex_value h, hex_value l, decodeURIComponent rest with
      | Some hi, Some lo, Some decoded =>
          Some (String (ascii_of_nat (16 * hi + lo)) decoded)
      | _, _, _ => None
      end
  | String "%" _ => None
  | String c rest =>
      match decodeURIComponent rest with
      | Some decoded => Some (String c decoded)
      | None => None
      end
  end.

(** [s.split(sep)] for a one-character separator. *)
Fixpoint split_on (sep : ascii) (s : string) : list string :=
  match s with
  | EmptyString => [EmptyString]
  | String c rest =>
      if Ascii.eqb c sep then EmptyString :: split_on sep rest
      else match split_on sep rest with
           | [] => [String c EmptyString]
           | first :: others => String c first :: others
           end
  end.

(** One [key=value] pair, read back. *)
Definition parse_pair (entry : string) : option (string * string) :=
  match split_on "=" entry with
  | [key; value] =>
      match decodeURIComponent key, decodeURIComponent value with
      | Some k, Some v => Some (k, v)
      | _, _ => None
      end
  | _ => None
  end.

Fixpoint parse_pairs (entries : list string)
  : option (list (string * string)) :=
  match entries with
  | [] => Some []
  | entry :: rest =>
      match parse_pair entry, parse_pairs rest with
      | Some kv, Some kvs => Some (kv :: kvs)
      | _, _ => None
      end
  end.

(** A query string read back into its entries: nothing for the empty
    string, else the [&]-separated pairs behind the [?]. *)
Definition parse_query (query : string) : option (list (string * string)) :=
  match query with
  | EmptyString => Some []
  | String "?" body => parse_pairs (split_on "&" body)
  | _ => None
  end.

(** The entries [buildQueryString] writes: the defined ones, each value
    as [String(value)]. *)
Definition written_entries (params : list (string * ParamValue))
  : list (string * string) :=
  map (fun kv => (fst kv, String_of (snd kv)))
    (filter (fun kv => is_defined (snd kv)) params).

(** ** Identifier checks and avatar URLs of [SleeperSDK] *)

Definition is_digit (c : ascii) : bool :=
  let n := nat_of_ascii c in ((48 <=? n) && (n <=? 57))%nat.

Definition is_upper (c : ascii) : bool :=
  let n := nat_of_ascii c in ((65 <=? n) && (n <=? 90))%nat.

Fixpoint every (p : ascii -> bool) (s : string) : bool :=
  match s with
  | EmptyString => true
  | String c rest => p c && every p rest
  end.

(** [/^\d+$/.test(s)] *)
Definition digits_only (s : string) : bool :=
  truthy_string s && every is_digit s.

(** [/^[A-Z]{2,3}$/.test(s)] *)
Definition team_abbreviation (s : string) : bool :=
  ((String.length s =? 2) || (String.length s =? 3))%nat && every is_upper s.

Definition isValidUserId (userId : string) : bool := digits_only userId.
Definition isValidLeagueId (leagueId : string) : bool := digits_only leagueId.
Definition isValidDraftId (draftId : string) : bool := digits_only draftId.
Definition isValidPlayerId (playerId : string) : bool :=
  digits_only playerId || team_abbreviation playerId.

(** Truthiness of [string | null]. *)
Definition truthy_nullable (s : option string) : bool :=
  match s with
  | Some (String _ _) => true
  | _ => false
  end.

(** [SleeperSDK.getAvatarUrl(avatarId, thumbnail = false)] *)
Definition SleeperSDK_getAvatarUrl (avatarId : option string)
    (thumbnail : option bool) : option string :=
  let thumbnail := default false thumbnail in
  if negb (truthy_nullable avatarId) then None
  else
    let baseUrl := "https://sleepercdn.com/avatars" in
    let path := if thumbnail then "/thumbs/" else "/" in
    Some (baseUrl ++ path ++ default "" avatarId)%string.

(** [UserService.getAvatarUrl(avatarId, thumbnail = false)] *)
Definition UserService_getAvatarUrl (avatarId : option string)
    (thumbnail : option bool) : option string :=
  let thumbnail := default false thumbnail in
  if negb (truthy_nullable avatarId) then None
  else
    let baseUrl := "https://sleepercdn.com/avatars" in
    let path := if thumbnail then "/thumbs/" else "/" in
    Some (baseUrl ++ path ++ default "" avatarId)%string.

(** [LeagueService.getLeagueAvatarUrl(avatarId, thumbnail = false)] *)
Definition getLeagueAvatarUrl (avatarId : option string)
    (thumbnail : option bool) : option string :=
  let thumbnail := default false thumbnail in
  if negb (truthy_nullable avatarId) then None
  else
    let baseUrl := "https://sleepercdn.com/avatars" in
    let path := if thumbnail then "/thumbs/" else "/" in
    Some (baseUrl ++ path ++ default "" avatarId)%string.

(** [n.toString()] for an integer. *)
Definition Number_toString (n : Z) : string :=
  NilZero.string_of_int (Z.to_int n).

(** [SleeperSDK.getCurrentNFLSeason()], with [now] for [new Date()]. *)
Definition getCurrentNFLSeason (now : Date) : string :=
  let year := fullYear now in
  let month' := month now in
  if month' <=? 1 then Number_toString (year - 1)
  else Number_toString year.

(** ** [UserService] *)

(** [SleeperUser] of [types.ts]. *)
Record SleeperUser := mkSleeperUser {
  user_id : string;
  username : string;
  display_name : string;
  avatar : option string
}.

Section UserService.

Variable Any : Type.
Variable net : Network SleeperUser Any.
Variable httpClient : HttpClient.

(** [getUser(usernameOrId)] *)
Definition getUser (usernameOrId : string) :=
  get net httpClient ("/user/" ++ usernameOrId)%string.

(** [getUserWithAvatar(usernameOrId, thumbnail = false)]: the user with
    one more property, [avatarUrl]. *)
Definition getUserWithAvatar (usernameOrId : string)
    (thumbnail : option bool) :=
  let thumbnail := default false thumbnail in
  let* user := getUser usernameOrId in
  let avatarUrl := UserService_getAvatarUrl (avatar user) (Some thumbnail) in
  resolve (user, avatarUrl).

End UserService.

Arguments getUser {Any}.
Arguments getUserWithAvatar {Any}.

(** ** [LeagueService] *)

(** The fields of [Roster] the accessors below read. *)
Record Roster := mkRoster {
  roster_number : Z;          (* [roster_id] *)
  owner_id : string;
  league_id : string
}.

(** [xs.find(test) || null]: the first element that passes, an object
    being truthy. *)
Definition find_or_null {A : Type} (test : A -> bool) (xs : list A)
  : option A :=
  find test xs.

Section LeagueService.

Variable Any : Type.
Variable net : Network (list Roster) Any.
Variable httpClient : HttpClient.

(** [getLeagueRosters(leagueId)] *)
Definition getLeagueRosters (leagueId : string) :=
  get net httpClient ("/league/" ++ leagueId ++ "/rosters")%string.

(** [getRosterById(leagueId, rosterId)] *)
Definition getRosterById (leagueId : string) (rosterId : Z) :=
  let* rosters := getLeagueRosters leagueId in
  resolve (find_or_null (fun roster => roster_number roster =? rosterId)
             rosters).

(** [getRosterByOwnerId(leagueId, ownerId)] *)
Definition getRosterByOwnerId (leagueId : string) (ownerId : string) :=
  let* rosters := getLeagueRosters leagueId in
  resolve (find_or_null (fun roster => String.eqb (owner_id roster) ownerId)
             rosters).

End LeagueService.

Arguments getLeagueRosters {Any}.
Arguments getRosterById {Any}.
Arguments getRosterByOwnerId {Any}.

Section Connection.

(** [NFLState] is only passed on. *)
Variables NFLState Any : Type.
Variable net : Network NFLState Any.
Variable httpClient : HttpClient.

(** [LeagueService.getSportState(sport)] *)
Definition getSportState (sport : Sport) :=
  get net httpClient ("/state/" ++ sport_path sport)%string.

(** [SleeperSDK.testConnection()]:
    [try { await getSportState('nfl'); return true } catch { return false }] *)
Definition testConnection (w : World)
  : Completion (option (SleeperError Any)) bool * World :=
  match getSportState nfl w with
  | (Return _, w1) => (Return true, w1)
  | (Throw _, w1) => (Return false, w1)
  end.

End Connection.

Arguments getSportState {NFLState Any}.
Arguments testConnection {NFLState Any}.

(** Whether axios settled an exchange with a response. *)
Definition answered {T Any : Type}
    (settled : AxiosError Any + AxiosResponse T) : bool :=
  match settled with
  | inr _ => true
  | inl _ => false
  end.

(** ** [DraftService] *)

Inductive DraftType := snake | linear | auction.
Inductive DraftStatus := pre_draft | drafting | complete.

(** The fields of [Draft] the accessors below read; [slot_to_roster_id]
    is an object keyed by the slot number in decimal. *)
Record Draft := mkDraft {
  draft_type : DraftType;
  draft_status : DraftStatus;
  settings_teams : Z;
  settings_rounds : Z;
  slot_to_roster_id : option (list (string * Z))
}.

(** [o[key]] on an object given by its own entries, for a key that no
    object inherits. *)
Fixpoint own_property {A : Type} (o : list (string * A)) (key : string)
  : option A :=
  match o with
  | [] => None
  | (k, v) :: rest => if String.eqb k key then Some v else own_property rest key
  end.

(** [Math.ceil(a / b)] for integers, [b] not 0. *)
Definition ceil_div (a b : Z) : Z := - ((- a) / b).

(** The result of [getCurrentPick]. *)
Record CurrentPick := mkCurrentPick {
  cp_round : Z;
  cp_pick : Z;
  cp_rosterId : option Z
}.

Definition is_snake (t : DraftType) : bool :=
  match t with snake => true | _ => false end.

Definition is_complete (s : DraftStatus) : bool :=
  match s with complete => true | _ => false end.

(** [getCurrentPick(draftId)] from the point where [Promise.all] has
    resolved to [draft] and [picks]. *)
Definition currentPickOf (draft : Draft) (picks : list DraftPick)
  : option CurrentPick :=
  if is_complete (draft_status draft) then None
  else
    let totalTeams := settings_teams draft in
    let totalRounds := settings_rounds draft in
    let totalPicks := Z.of_nat (List.length picks) in
    let nextPickNumber := totalPicks + 1 in
    if totalTeams * totalRounds <? nextPickNumber then None
    else
      let round' := ceil_div nextPickNumber totalTeams in
      let pickInRound := Z.rem (nextPickNumber - 1) totalTeams + 1 in
      let adjustedPickInRound :=
        if is_snake (draft_type draft) && (Z.rem round' 2 =? 0)
        then totalTeams - pickInRound + 1
        else pickInRound in
      let rosterId :=
        match slot_to_roster_id draft with
        | Some slots => own_property slots (Number_toString adjustedPickInRound)
        | None => None
        end in
      Some {| cp_round := round';
              cp_pick := adjustedPickInRound;
              cp_rosterId := rosterId |}.

(** The pick number a linear draft gives slot [pick] of round [round']. *)
Definition overall_pick (teams round' pick : Z) : Z :=
  (round' - 1) * teams + pick.

Section DraftAccessors.

Variable Any : Type.
Variable net : Network (list DraftPick) Any.
Variable httpClient : HttpClient.

(** [getPickByNumber(draftId, pickNumber)] *)
Definition getPickByNumber (draftId : string) (pickNumber : Z) :=
  let* picks := getDraftPicks net httpClient draftId in
  resolve (find_or_null (fun pick => pick_no pick =? pickNumber) picks).

End DraftAccessors.

Arguments getPickByNumber {Any}.

(** An object with number keys, by its own entries: [o[k] = v] replaces
    the entry of [k] or adds one.  The order in which the keys would be
    enumerated is not modelled. *)
Fixpoint number_get (o : list (Z * Z)) (k : Z) : option Z :=
  match o with
  | [] => None
  | (k', v) :: rest => if k' =? k then Some v else number_get rest k
  end.

Fixpoint number_set (o : list (Z * Z)) (k v : Z) : list (Z * Z) :=
  match o with
  | [] => [(k, v)]
  | (k', v') :: rest =>
      if k' =? k then (k, v) :: rest else (k', v') :: number_set rest k v
  end.

(** The same for string keys. *)
Fixpoint own_set (o : list (string * Z)) (k : string) (v : Z)
  : list (string * Z) :=
  match o with
  | [] => [(k, v)]
  | (k', v') :: rest =>
      if String.eqb k' k then (k, v) :: rest
      else (k', v') :: own_set rest k v
  end.

(** The names every object inherits from [Object.prototype]: for these
    [o[name]] is not [undefined] on an empty object. *)
Definition Object_prototype_names : list string :=
  ["constructor"; "toString"; "toLocaleString"; "valueOf"; "hasOwnProperty";
   "isPrototypeOf"; "propertyIsEnumerable"; "__proto__"; "__defineGetter__";
   "__defineSetter__"; "__lookupGetter__"; "__lookupSetter__"].

(** A [DraftPick] with one further property the accessors below read:
    [metadata?.position]. *)
Record PickDetails := mkPickDetails {
  the_pick : DraftPick;
  metadata_position : option string
}.

(** The result of [getDraftStats]. *)
Record DraftStats := mkDraftStats {
  totalPicks : Z;
  picksByRound : list (Z * Z);
  picksByPosition : list (string * Z)
}.

(** The body of the [forEach] of [getDraftStats].  The position counter
    is read with [own_property]: a position that is one of
    [Object_prototype_names] is outside this model. *)
Definition count_pick (counters : list (Z * Z) * list (string * Z))
    (pick : PickDetails) : list (Z * Z) * list (string * Z) :=
  let (picksByRound, picksByPosition) := counters in
  let picksByRound :=
    number_set picksByRound (round (the_pick pick))
      (or_number (number_get picksByRound (round (the_pick pick))) 0 + 1) in
  let position := metadata_position pick in
  if truthy_nullable position then
    (picksByRound,
     own_set picksByPosition (default "" position)
       (or_number (own_property picksByPosition (default "" position)) 0 + 1))
  else (picksByRound, picksByPosition).

Section DraftStatistics.

Variable Any : Type.
Variable net : Network (list PickDetails) Any.
Variable httpClient : HttpClient.

(** [getDraftPicks(draftId)], its picks read with their details. *)
Definition getDraftPicks_detailed (draftId : string) :=
  get net httpClient ("/draft/" ++ draftId ++ "/picks")%string.

(** [getPicksByPosition(draftId, position)] *)
Definition getPicksByPosition (draftId : string) (position' : string) :=
  let* picks := getDraftPicks_detailed draftId in
  resolve (filter (fun pick =>
                     match metadata_position pick with
                     | Some p => String.eqb p position'
                     | None => false
                     end) picks).

(** [getDraftStats(draftId)] *)
Definition getDraftStats (draftId : string) :=
  let* picks := getDraftPicks_detailed draftId in
  let counters := fold_left count_pick picks ([], []) in
  resolve {| totalPicks := Z.of_nat (List.length picks);
             picksByRound := fst counters;
             picksByPosition := snd counters |}.

End DraftStatistics.

Arguments getDraftPicks_detailed {Any}.
Arguments getPicksByPosition {Any}.
Arguments getDraftStats {Any}.

(** The sum of the counts of a counter object. *)
Definition counted {K : Type} (o : list (K * Z)) : Z :=
  fold_right Z.add 0 (map snd o).

(** ** [PlayerService.getTrendingPlayers] *)

Inductive TrendingType := add | drop.

Definition trending_path (type : TrendingType) : string :=
  match type with
  | add => "add"
  | drop => "drop"
  end.

Section Trending.

(** [TrendingPlayer[]] is only passed on. *)
Variables TrendingPlayers Any : Type.
Variable net : Network TrendingPlayers Any.
Variable httpClient : HttpClient.

(** [getTrendingPlayers(sport, type, lookbackHours = 24, limit = 25)] *)
Definition getTrendingPlayers (sport : Sport) (type : TrendingType)
    (lookbackHours limit : option Z) :=
  let lookbackHours := default 24 lookbackHours in
  let limit := default 25 limit in
  let query :=
    buildQueryString
      [("lookback_hours", PNumber lookbackHours); ("limit", PNumber limit)] in
  get net httpClient
    ("/players/" ++ sport_path sport ++ "/trending/" ++ trending_path type
     ++ query)%string.

End Trending.

Arguments getTrendingPlayers {TrendingPlayers Any}.

(** The delays of the pacer's waits. *)
Definition paces (tr : list (Z * Action)) : list Z :=
  flat_map (fun e => match snd e with Pace ms => [ms] | _ => [] end) tr.

(** ** Vocabulary of the further properties *)

(** [s] has no character [c]. *)
Definition lacks (c : ascii) (s : string) : bool :=
  every (fun x => negb (Ascii.eqb x c)) s.

(** The picks of round [r], and the picks at position [p]. *)
Definition in_round (r : Z) (pick : PickDetails) : bool :=
  round (the_pick pick) =? r.

Definition at_pick_position (p : string) (pick : PickDetails) : bool :=
  match metadata_position pick with
  | Some q => String.eqb q p
  | None => false
  end.

(** How many elements pass a test. *)
Definition count_of {A : Type} (test : A -> bool) (xs : list A) : Z :=
  Z.of_nat (List.length (filter test xs)).

(** What the counters of [getDraftStats] hold after the picks [seen]. *)
Definition counters_of (seen : list PickDetails)
    (counters : list (Z * Z) * list (string * Z)) : Prop :=
  (forall r, default 0 (number_get (fst counters) r)
             = count_of (in_round r) seen)
  /\ counted (fst counters) = Z.of_nat (List.length seen)
  /\ (forall p, p <> "" ->
        default 0 (own_property (snd counters) p)
        = count_of (at_pick_position p) seen)
  /\ counted (snd counters)
     = count_of (fun pick => truthy_nullable (metadata_position pick)) seen.

(** No pick has a position that is a name every object inherits: the
    domain on which the position counter is modelled. *)
Definition plain_positions (picks : list PickDetails) : Prop :=
  forall pick name,
    In pick picks -> metadata_position pick = Some name ->
    ~ In name Object_prototype_names.

(** [result] is the first element of [xs] that passes [test], or nothing
    when none passes. *)
Definition first_match {A : Type} (test : A -> bool) (xs : list A)
    (result : option A) : Prop :=
  match result with
  | Some x =>
      exists before after,
        xs = before ++ x :: after
        /\ test x = true
        /\ Forall (fun y => test y = false) before
  | None => Forall (fun y => test y = false) xs
  end.

(** The rank [by_search_rank] goes by: a rank of 0 counts as none. *)
Definition counted_rank (p : Player) : option Z :=
  match search_rank p with
  | Some r => if r =? 0 then None else Some r
  | None => None
  end.

(** [a] may stand before [b]: ranked before unranked, lower rank
    first. *)
Definition ranks_before (a b : Player) : Prop :=
  match counted_rank a, counted_rank b with
  | Some ra, Some rb => ra <= rb
  | Some _, None => True
  | None, Some _ => False
  | None, None => True
  end.

(** ** More concrete inputs *)

(** A client configured with a negative retry count. *)
Definition no_attempts_client : HttpClient := client_with (-1) 1000.

Definition some_params : list (string * ParamValue) :=
  [("a", PNumber 1); ("b", PUndefined); ("c", PString "x y")].

Definition some_user : SleeperUser :=
  {| user_id := "12345678"; username := "sleeperuser";
     display_name := "Sleeper User"; avatar := Some "cc12ec49965eb7856f84d71cf85306af" |}.

Definition some_rosters : list Roster :=
  [ {| roster_number := 1; owner_id := "u1"; league_id := "l1" |};
    {| roster_number := 2; owner_id := "u2"; league_id := "l1" |} ].

(** A snake draft of 12 teams and 15 rounds, under way. *)
Definition snake_draft : Draft :=
  {| draft_type := snake; draft_status := drafting;
     settings_teams := 12; settings_rounds := 15;
     slot_to_roster_id := Some [("1", 7); ("12", 3)] |}.

(** Twelve picks made: the first round is over. *)
Definition twelve_picks : list DraftPick :=
  repeat {| pick_player_id := "4035"; picked_by := "u1"; roster_id := 1;
            round := 1; pick_no := 1 |} 12.

Definition detailed_picks : list PickDetails :=
  [ {| the_pick := {| pick_player_id := "4035"; picked_by := "u1";
                      roster_id := 1; round := 1; pick_no := 1 |};
       metadata_position := Some "QB" |};
    {| the_pick := {| pick_player_id := "4046"; picked_by := "u2";
                      roster_id := 2; round := 1; pick_no := 2 |};
       metadata_position := Some "RB" |};
    {| the_pick := {| pick_player_id := "4098"; picked_by := "u2";
                      roster_id := 2; round := 2; pick_no := 3 |};
       metadata_position := None |} ].

(** 15 January 2025, midnight. *)
Definition mid_january : Date :=
  {| fullYear := 2025; month := 0; date := 15; msOfDay := 0 |}.

(** Two running backs: the one that comes first in the object has no
    rank, the second is ranked 3. *)
Definition ranked_late : PlayersResponse :=
  [ ("4046", {| player_id := "4046"; position := "RB";
                fantasy_positions := ["RB"]; search_rank := None |});
    ("4035", {| player_id := "4035"; position := "RB";
                fantasy_positions := ["RB"]; search_rank := Some 3 |}) ].

(** * Properties *)

(** ** The error classifier *)

Lemma or_number_received {Any : Type} (error : AxiosError Any) :
  or_number (response_status error) 0 = received_status error.
Proof.
  unfold response_status, received_status.
  destruct (ae_response error) as [r|]; simpl; auto.
  destruct (Z.eqb_spec (er_status r) 0); congruence.
Qed.

(** The table of overrides is the chain of tests of the interceptor. *)
Lemma override_cases (received : option Z) :
  override_message received =
  if strict_eq_number received 429 then Some rate_limit_message
  else if strict_eq_number received 404 then Some not_found_message
  else if ge_number received 500 then Some server_error_message
  else None.
Proof.
  destruct received as [s|]; simpl; auto.
  destruct (Z.eqb_spec s 429) as [->|]; auto.
  destruct (Z.eqb_spec s 404) as [->|]; auto.
  destruct s as [|p|p]; auto.
  unfold override_message.
  repeat (destruct p as [p|p|]; auto; try congruence).
Qed.

(** The interceptor differs from the specified classifier in one place:
    an empty or missing message becomes ['Unknown error']. *)
Lemma interceptor_shape {Any : Type} (error : AxiosError Any) :
  responseErrorInterceptor error =
  classified_as_specified error (or_string (ae_message error) "Unknown error").
Proof.
  unfold responseErrorInterceptor, classified_as_specified.
  rewrite override_cases. cbn [status details].
  rewrite or_number_received.
  destruct (strict_eq_number _ 429); auto.
  destruct (strict_eq_number _ 404); auto.
  destruct (ge_number _ 500); auto.
Qed.

(** C4, as stated, fails: a failure without a response whose message is
    the empty string is classified with the message ['Unknown error'],
    not with its raw message. *)
Lemma classifier_replaces_empty_message : ~ classifier_as_stated silent_failure.
Proof.
  intros H. specialize (H "" eq_refl). discriminate H.
Qed.

(** C4, amended: the classified error carries the received status (0
    without a response) and the response body as details (none without a
    response); its message is the fixed text for status 429, 404 and 500
    or more, and otherwise the raw message when that is a non-empty
    string and ['Unknown error'] when it is empty or missing. *)
Theorem classifier_contract {Any : Type} (error : AxiosError Any) :
  let e := responseErrorInterceptor error in
  status e = received_status error
  /\ details e = option_map er_data (ae_response error)
  /\ (forall fixed,
        override_message (response_status error) = Some fixed ->
        message e = fixed)
  /\ (override_message (response_status error) = None ->
      (forall raw, ae_message error = Some raw -> raw <> "" ->
         message e = raw)
      /\ (ae_message error = None \/ ae_message error = Some "" ->
          message e = "Unknown error")).
Proof.
  cbv zeta. rewrite interceptor_shape.
  unfold classified_as_specified. cbn [status details message].
  split; [reflexivity|]. split; [reflexivity|]. split.
  - intros fixed ->. reflexivity.
  - intros ->. split.
    + intros raw -> Hne. destruct raw; [contradiction|reflexivity].
    + intros [-> | ->]; reflexivity.
Qed.

Lemma classifier_contract_witness :
  message (responseErrorInterceptor (status_failure 429 "slow down"))
    = rate_limit_message
  /\ message (responseErrorInterceptor (status_failure 400 "bad"))
    = "Request failed"
  /\ message (responseErrorInterceptor silent_failure) = "Unknown error".
Proof.
  split; [|split].
  - destruct (classifier_contract (status_failure 429 "slow down"))
      as (_ & _ & Hfixed & _).
    apply Hfixed. reflexivity.
  - destruct (classifier_contract (status_failure 400 "bad"))
      as (_ & _ & _ & Hraw).
    apply Hraw; [reflexivity | reflexivity | discriminate].
  - destruct (classifier_contract silent_failure) as (_ & _ & _ & Hraw).
    apply Hraw; [reflexivity|]. right. reflexivity.
Defined.

(** ** The retry controller *)

Lemma retryable_not_client_error {Any : Type} (e : SleeperError Any) :
  retryable_status (status e) -> client_error e = false.
Proof.
  unfold retryable_status, client_error. intros [H | [H | H]].
  - rewrite H. reflexivity.
  - rewrite H. reflexivity.
  - assert ((status e <? 500) = false) as -> by (apply Z.ltb_ge; lia).
    now rewrite andb_false_r.
Qed.

Lemma not_terminal_not_client_error {Any : Type} (e : SleeperError Any) :
  ~ terminal_status (status e) -> client_error e = false.
Proof.
  unfold terminal_status, client_error. intros H.
  destruct (Z.leb_spec 400 (status e)); [|reflexivity].
  destruct (Z.ltb_spec (status e) 500); [|reflexivity].
  destruct (Z.eqb_spec (status e) 429); [reflexivity|].
  exfalso. apply H. lia.
Qed.

Lemma retryable_not_terminal (s : Z) :
  retryable_status s -> ~ terminal_status s.
Proof. unfold retryable_status, terminal_status. lia. Qed.

Lemma terminal_client_error {Any : Type} (e : SleeperError Any) :
  terminal_status (status e) -> client_error e = true.
Proof.
  unfold terminal_status, client_error. intros [[H1 H2] H3].
  apply andb_true_iff. split; [apply andb_true_iff; split|].
  - apply Z.leb_le; lia.
  - apply Z.ltb_lt; lia.
  - apply negb_true_iff. apply Z.eqb_neq; lia.
Qed.

Lemma control_app (tr1 tr2 : list (Z * Action)) :
  control (tr1 ++ tr2) = control tr1 ++ control tr2.
Proof. unfold control. apply flat_map_app. Qed.

Lemma send_times_app (tr1 tr2 : list (Z * Action)) :
  send_times (tr1 ++ tr2) = send_times tr1 ++ send_times tr2.
Proof. unfold send_times. now rewrite filter_app, map_app. Qed.

Lemma retry_script_S (m : Method) (url : string) (d attempt : Z) (k : nat) :
  retry_script m url d attempt (S k) =
  Send m url :: Backoff (d * 2 ^ attempt)
    :: retry_script m url d (attempt + 1) k.
Proof.
  unfold retry_script. cbn [seq flat_map app].
  rewrite Z.add_0_r. do 2 f_equal.
  rewrite <- seq_shift, flat_map_concat_map, map_map, <- flat_map_concat_map.
  apply flat_map_ext. intros i.
  replace (attempt + Z.of_nat (S i)) with (attempt + 1 + Z.of_nat i) by lia.
  reflexivity.
Qed.

Lemma attempts_control (tr : list (Z * Action)) :
  attempts tr = List.length (filter sending (control tr)).
Proof.
  unfold attempts, send_times, control. rewrite length_map.
  induction tr as [|[t a] tr IH]; auto.
  cbn [filter flat_map]. unfold is_send at 1. cbn [snd].
  destruct a; cbn; auto.
Qed.

Lemma sending_retry_script (m : Method) (url : string) (d : Z) (k : nat) :
  forall attempt,
    List.length (filter sending (retry_script m url d attempt k)) = k.
Proof.
  induction k as [|k IH]; intros attempt; auto.
  rewrite retry_script_S. cbn. now rewrite IH.
Qed.

(** The backoff delays can be read off the control trace. *)
Lemma backoffs_control (tr : list (Z * Action)) :
  backoffs tr =
  flat_map (fun a => match a with Backoff ms => [ms] | _ => [] end)
    (control tr).
Proof.
  unfold backoffs, control.
  induction tr as [|[t a] tr IH]; auto.
  cbn [flat_map snd]. rewrite IH. destruct a; reflexivity.
Qed.

Section RetryLoop.

Variables T Any : Type.
Variable net : Network T Any.
Variable this : HttpClient.
Variable m : Method.
Variable url : string.

Lemma enforceRateLimit_exchanges (w : World) :
  exchanges (enforceRateLimit net this w) = exchanges w.
Proof. unfold enforceRateLimit. destruct pacing_delay; reflexivity. Qed.

Lemma enforceRateLimit_control (w : World) :
  control (trace (enforceRateLimit net this w)) = control (trace w).
Proof.
  unfold enforceRateLimit. destruct pacing_delay; cbn; auto.
  rewrite control_app. cbn. apply app_nil_r.
Qed.

(** One call of the request thunk: the pacer, then exchange number
    [exchanges w], settled as the network says. *)
Lemma client_request_spec (w : World) :
  exists w1,
    client_request net this m url w =
      (match answer net (exchanges w) m url with
       | inr response => Return response
       | inl error => Throw (responseErrorInterceptor error)
       end, w1)
    /\ exchanges w1 = S (exchanges w)
    /\ control (trace w1) = control (trace w) ++ [Send m url].
Proof.
  unfold client_request, exchange.
  rewrite enforceRateLimit_exchanges.
  destruct (answer net (exchanges w) m url); eexists;
    (split; [reflexivity|]);
    cbn; rewrite control_app, enforceRateLimit_control; auto.
Qed.

(** [k] failures in a row that are not client errors, none of them on
    the last allowed attempt, bring the loop to attempt [attempt + k]. *)
Lemma retry_prefix (k : nat) : forall fuel attempt lastError w,
  (k < fuel)%nat -> 0 <= attempt ->
  attempt + Z.of_nat k <= this_retries this ->
  (forall i, (i < k)%nat ->
     exists e, failure_of net (exchanges w + i) m url = Some e
               /\ client_error e = false) ->
  exists w' lastError',
    retry_from net this fuel (client_request net this m url)
      attempt lastError w =
    retry_from net this (fuel - k) (client_request net this m url)
      (attempt + Z.of_nat k) lastError' w'
    /\ exchanges w' = (exchanges w + k)%nat
    /\ control (trace w') =
         control (trace w)
         ++ retry_script m url (this_retryDelay this) attempt k.
Proof.
  induction k as [|k IH]; intros fuel attempt lastError w Hfuel Ha Hk Hfail.
  - exists w, lastError. rewrite Nat.sub_0_r, Z.add_0_r, Nat.add_0_r.
    cbn. rewrite app_nil_r. auto.
  - destruct fuel as [|fuel]; [lia|].
    destruct (Hfail 0%nat) as (e & He & Hce); [lia|].
    rewrite Nat.add_0_r in He. unfold failure_of in He.
    destruct (client_request_spec w) as (w1 & Hreq & Hex & Hctl).
    destruct (answer net (exchanges w) m url) as [error|] eqn:Hans;
      [|discriminate].
    injection He as <-.
    cbn [retry_from].
    assert ((attempt <=? this_retries this) = true) as ->
        by (apply Z.leb_le; lia).
    rewrite Hreq, Hce.
    assert ((attempt =? this_retries this) = false) as ->
        by (apply Z.eqb_neq; lia).
    set (delay := this_retryDelay this * 2 ^ attempt).
    set (w2 := sleep net delay (emit (Backoff delay) w1)).
    destruct (IH fuel (attempt + 1) (Some (responseErrorInterceptor error)) w2)
      as (w' & le' & Hrun & Hex' & Hctl'); [lia | lia | lia | |].
    { intros i Hi. destruct (Hfail (S i)) as (e' & He' & Hce'); [lia|].
      exists e'. split; auto.
      replace (exchanges w2 + i)%nat with (exchanges w + S i)%nat; auto.
      subst w2. cbn. lia. }
    exists w', le'. split; [|split].
    + rewrite Hrun. cbn [Nat.sub]. f_equal. lia.
    + rewrite Hex'. subst w2. cbn. lia.
    + rewrite Hctl', retry_script_S. subst w2.
      cbn [sleep emit trace]. rewrite control_app, Hctl.
      rewrite <- !app_assoc. reflexivity.
Qed.

(** Whatever the loop does, it only adds to the trace. *)
Lemma retry_from_extends (fuel : nat) : forall attempt lastError w,
  exists rest,
    control (trace (snd (retry_from net this fuel
                           (client_request net this m url)
                           attempt lastError w))) =
    control (trace w) ++ rest.
Proof.
  induction fuel as [|fuel IH]; intros attempt lastError w; cbn [retry_from].
  - exists []. now rewrite app_nil_r.
  - destruct (attempt <=? this_retries this);
      [|exists []; now rewrite app_nil_r].
    destruct (client_request_spec w) as (w1 & Hreq & _ & Hctl).
    rewrite Hreq.
    destruct (answer net (exchanges w) m url) as [error|response].
    + destruct (client_error _); [eexists; cbn; eauto|].
      destruct (attempt =? this_retries this); [eexists; cbn; eauto|].
      match goal with |- context [retry_from _ _ _ _ ?a ?le ?w2] =>
        destruct (IH a le w2) as (rest & ->) end.
      cbn [sleep emit trace]. rewrite control_app, Hctl, <- !app_assoc.
      eauto.
    + eexists; cbn; eauto.
Qed.

(** More fuel than the loop can use changes nothing: [executeWithRetry]
    never stops for lack of it. *)
Lemma retry_from_fuel (fuel : nat) : forall extra attempt lastError w,
  0 <= attempt ->
  (Z.to_nat (this_retries this + 1 - attempt) < fuel)%nat ->
  retry_from net this (fuel + extra) (client_request net this m url)
    attempt lastError w =
  retry_from net this fuel (client_request net this m url)
    attempt lastError w.
Proof.
  induction fuel as [|fuel IH]; intros extra attempt lastError w Ha Hfuel;
    [lia|].
  cbn [retry_from Nat.add].
  destruct (Z.leb_spec attempt (this_retries this)); [|reflexivity].
  destruct (client_request net this m url w) as [[response|error] w1];
    [reflexivity|].
  destruct (client_error error); [reflexivity|].
  destruct (attempt =? this_retries this); [reflexivity|].
  apply IH; lia.
Qed.

Lemma call_fuel (extra : nat) (w : World) :
  retry_from net this (S (Z.to_nat (this_retries this + 1)) + extra)
    (client_request net this m url) 0 None w
  = call net this m url w.
Proof. apply retry_from_fuel; lia. Qed.

(** X5: a negative retry count leaves the loop before any attempt:
    nothing is sent, the world is untouched, and [undefined] is
    thrown. *)
Lemma call_negative_retries (w : World) :
  this_retries this < 0 -> call net this m url w = (Throw None, w).
Proof.
  intros H. unfold call, executeWithRetry. cbn [retry_from].
  assert ((0 <=? this_retries this) = false) as -> by (apply Z.leb_gt; lia).
  reflexivity.
Qed.

Lemma fails_retryably_weaken (w : World) (k : nat) :
  (forall i, (i < k)%nat -> fails_retryably net (exchanges w + i) m url) ->
  forall i, (i < k)%nat -> fails_not_terminally net (exchanges w + i) m url.
Proof.
  intros H i Hi. destruct (H i Hi) as (e & He & Hs).
  exists e. split; auto. now apply retryable_not_terminal.
Qed.

(** The run up to attempt [k], when the [k] attempts before it failed
    without a terminal status and [k] is within the ceiling. *)
Lemma call_prefix (w : World) (k : nat) :
  Z.of_nat k <= this_retries this ->
  (forall i, (i < k)%nat ->
     fails_not_terminally net (exchanges w + i) m url) ->
  exists w' lastError' fuel,
    call net this m url w =
      retry_from net this (S fuel) (client_request net this m url)
        (Z.of_nat k) lastError' w'
    /\ exchanges w' = (exchanges w + k)%nat
    /\ control (trace w') =
         control (trace w) ++ retry_script m url (this_retryDelay this) 0 k.
Proof.
  intros Hk Hfail.
  destruct (retry_prefix k (S (Z.to_nat (this_retries this + 1))) 0 None w)
    as (w' & le' & Hrun & Hex & Hctl); try lia.
  { intros i Hi. destruct (Hfail i Hi) as (e & He & Hs).
    exists e. split; auto. now apply not_terminal_not_client_error. }
  exists w', le', (Z.to_nat (this_retries this + 1) - k)%nat.
  split; [|split]; auto.
  unfold call, executeWithRetry. rewrite Hrun. f_equal. lia.
Qed.

(** What the client observes when the loop stops at attempt [k]. *)
Lemma call_stops_at (w w' w1 : World) (k fuel : nat)
    (lastError' : option (SleeperError Any))
    (result : Completion (option (SleeperError Any)) T) :
  call net this m url w =
    retry_from net this (S fuel) (client_request net this m url)
      (Z.of_nat k) lastError' w' ->
  control (trace w') =
    control (trace w) ++ retry_script m url (this_retryDelay this) 0 k ->
  retry_from net this (S fuel) (client_request net this m url)
    (Z.of_nat k) lastError' w' = (result, w1) ->
  control (trace w1) = control (trace w') ++ [Send m url] ->
  fst (call net this m url w) = result
  /\ attempts (trace (snd (call net this m url w))) =
       (attempts (trace w) + k + 1)%nat
  /\ control (trace (snd (call net this m url w))) =
       control (trace w)
       ++ retry_script m url (this_retryDelay this) 0 k ++ [Send m url].
Proof.
  intros Hrun Hctl Hw1 Hstep. rewrite Hrun, Hw1. cbn [fst snd].
  assert (Hfinal : control (trace w1) =
                   control (trace w)
                   ++ retry_script m url (this_retryDelay this) 0 k
                   ++ [Send m url]).
  { rewrite Hstep, Hctl, <- app_assoc. reflexivity. }
  split; [|split]; auto.
  rewrite !attempts_control, Hfinal, !filter_app, !length_app.
  rewrite sending_retry_script. cbn. lia.
Qed.

(** The defaults of the constructor. *)
Lemma constructor_defaults :
  this_retries defaultClient = 3
  /\ this_retryDelay defaultClient = 1000
  /\ minRequestInterval defaultClient = 60.
Proof. repeat split. Qed.

(** C1: when every attempt fails with a retryable status (0, 429, 500
    or more) and the retry count is a count, the loop makes exactly
    [retries + 1] attempts, with a backoff between each two, and then
    throws the classified error of the last attempt itself. *)
Theorem retries_exhausted (w : World) :
  0 <= this_retries this ->
  (forall i, (i <= Z.to_nat (this_retries this))%nat ->
     fails_retryably net (exchanges w + i) m url) ->
  (exists lastError,
      failure_of net (exchanges w + Z.to_nat (this_retries this)) m url
        = Some lastError
      /\ fst (call net this m url w) = Throw (Some lastError))
  /\ attempts (trace (snd (call net this m url w))) =
       (attempts (trace w) + Z.to_nat (this_retries this) + 1)%nat
  /\ control (trace (snd (call net this m url w))) =
       control (trace w)
       ++ retry_script m url (this_retryDelay this) 0
            (Z.to_nat (this_retries this))
       ++ [Send m url].
Proof.
  intros HR Hfail.
  set (k := Z.to_nat (this_retries this)).
  destruct (call_prefix w k) as (w' & le' & fuel & Hrun & Hex & Hctl);
    [lia | apply fails_retryably_weaken; intros; apply Hfail; lia |].
  destruct (Hfail k) as (e & He & Hs); [lia|].
  destruct (client_request_spec w') as (w1 & Hreq & _ & Hctl1).
  assert (Hlast : retry_from net this (S fuel) (client_request net this m url)
                    (Z.of_nat k) le' w' = (Throw (Some e), w1)).
  { cbn [retry_from].
    assert ((Z.of_nat k <=? this_retries this) = true) as ->
        by (apply Z.leb_le; lia).
    rewrite Hreq. unfold failure_of in He. rewrite <- Hex in He.
    destruct (answer net (exchanges w') m url) as [error|]; [|discriminate].
    injection He as ->.
    rewrite (retryable_not_client_error _ Hs).
    assert ((Z.of_nat k =? this_retries this) = true) as ->
        by (apply Z.eqb_eq; lia).
    reflexivity. }
  destruct (call_stops_at w w' w1 k fuel le' _ Hrun Hctl Hlast Hctl1)
    as (Hres & Hatt & Hfinal).
  split; [eauto|]. split; assumption.
Qed.

(** C2: a failure classified with a status in [400, 500) other than 429
    ends the request at once, on whichever attempt [k] it comes (the
    attempts before it having failed and been retried): that error is
    thrown, and the trace ends with the request of that attempt, with no
    backoff and no further attempt after it.  For the first attempt
    ([k = 0]) that is one attempt in all, whatever the retry count. *)
Theorem client_error_is_terminal (w : World) (k : nat)
    (e : SleeperError Any) :
  Z.of_nat k <= this_retries this ->
  (forall i, (i < k)%nat ->
     fails_not_terminally net (exchanges w + i) m url) ->
  failure_of net (exchanges w + k) m url = Some e ->
  terminal_status (status e) ->
  fst (call net this m url w) = Throw (Some e)
  /\ attempts (trace (snd (call net this m url w))) =
       (attempts (trace w) + k + 1)%nat
  /\ control (trace (snd (call net this m url w))) =
       control (trace w)
       ++ retry_script m url (this_retryDelay this) 0 k ++ [Send m url].
Proof.
  intros Hk Hfail He Hs.
  destruct (call_prefix w k) as (w' & le' & fuel & Hrun & Hex & Hctl); auto.
  destruct (client_request_spec w') as (w1 & Hreq & _ & Hctl1).
  apply (call_stops_at w w' w1 k fuel le'); auto.
  cbn [retry_from].
  assert ((Z.of_nat k <=? this_retries this) = true) as ->
      by (apply Z.leb_le; lia).
  rewrite Hreq. unfold failure_of in He. rewrite <- Hex in He.
  destruct (answer net (exchanges w') m url) as [error|]; [|discriminate].
  injection He as ->.
  rewrite (terminal_client_error _ Hs). reflexivity.
Qed.


(** C6: when attempt [k], within the ceiling, is answered with a
    response axios accepts (the attempts before it having failed and
    been retried), the request resolves to the body of that response,
    and the request of attempt [k] is the last thing the client does: no
    later attempt is made. *)
Theorem success_short_circuits (w : World) (k : nat)
    (response : AxiosResponse T) :
  Z.of_nat k <= this_retries this ->
  (forall i, (i < k)%nat ->
     fails_not_terminally net (exchanges w + i) m url) ->
  answer net (exchanges w + k) m url = inr response ->
  fst (call net this m url w) = Return (data response)
  /\ attempts (trace (snd (call net this m url w))) =
       (attempts (trace w) + k + 1)%nat
  /\ control (trace (snd (call net this m url w))) =
       control (trace w)
       ++ retry_script m url (this_retryDelay this) 0 k ++ [Send m url].
Proof.
  intros Hk Hfail Hans.
  destruct (call_prefix w k) as (w' & le' & fuel & Hrun & Hex & Hctl); auto.
  destruct (client_request_spec w') as (w1 & Hreq & _ & Hctl1).
  apply (call_stops_at w w' w1 k fuel le'); auto.
  cbn [retry_from].
  assert ((Z.of_nat k <=? this_retries this) = true) as ->
      by (apply Z.leb_le; lia).
  rewrite Hreq, Hex, Hans. reflexivity.
Qed.

End RetryLoop.

(** With [retries = 2], [retryDelay = 100] and a server that always
    answers 503: three attempts, backoffs of 100 and 200, and the 503
    thrown. *)
Lemma retries_exhausted_witness :
  (exists lastError,
      failure_of (always_failing 503) 2 GET "/state/nfl" = Some lastError
      /\ fst (call (always_failing 503) (client_with 2 100) GET "/state/nfl"
                (fresh_world 1000))
         = Throw (Some lastError))
  /\ attempts (trace (snd (call (always_failing 503) (client_with 2 100) GET
                             "/state/nfl" (fresh_world 1000)))) = 3%nat
  /\ control (trace (snd (call (always_failing 503) (client_with 2 100) GET
                            "/state/nfl" (fresh_world 1000)))) =
       [Send GET "/state/nfl"; Backoff 100; Send GET "/state/nfl";
        Backoff 200; Send GET "/state/nfl"].
Proof.
  apply (retries_exhausted string string (always_failing 503)
           (client_with 2 100) GET "/state/nfl" (fresh_world 1000)).
  - simpl. lia.
  - intros i _. eexists. split; [reflexivity|].
    right. right. simpl. lia.
Defined.

Example permanent_503 :
  fst (call (always_failing 503) (client_with 2 100) GET "/state/nfl"
         (fresh_world 1000))
  = Throw (Some {| status := 503; message := server_error_message;
                   details := Some "body" |})
  /\ trace (snd (call (always_failing 503) (client_with 2 100) GET
                   "/state/nfl" (fresh_world 1000)))
     = [(1000, Send GET "/state/nfl"); (1020, Backoff 100);
        (1120, Send GET "/state/nfl"); (1140, Backoff 200);
        (1340, Send GET "/state/nfl")].
Proof. split; reflexivity. Qed.

(** A first response of status 400 under the default configuration: one
    attempt, no backoff, the 400 thrown. *)
Lemma client_error_is_terminal_witness :
  fst (call (always_failing 400) defaultClient GET "/user/x"
         (fresh_world 1000))
  = Throw (Some {| status := 400; message := "Request failed";
                   details := Some "body" |})
  /\ attempts (trace (snd (call (always_failing 400) defaultClient GET
                             "/user/x" (fresh_world 1000)))) = 1%nat
  /\ control (trace (snd (call (always_failing 400) defaultClient GET
                            "/user/x" (fresh_world 1000))))
     = [Send GET "/user/x"].
Proof.
  apply (client_error_is_terminal string string (always_failing 400)
           defaultClient GET "/user/x" (fresh_world 1000) 0).
  - simpl. lia.
  - intros i Hi. lia.
  - reflexivity.
  - unfold terminal_status. simpl. lia.
Defined.


Example rate_limited_run :
  fst (call (always_failing 429) defaultClient GET "/state/nfl"
         (fresh_world 1000))
  = Throw (Some {| status := 429; message := rate_limit_message;
                   details := Some "body" |})
  /\ backoffs (trace (snd (call (always_failing 429) defaultClient GET
                             "/state/nfl" (fresh_world 1000))))
     = [1000; 2000; 4000].
Proof. split; reflexivity. Qed.

(** Attempt 2 of the 4 the default configuration allows succeeds: its
    body is the result and attempts 3 and 4 are never made. *)
Lemma success_short_circuits_witness :
  fst (call second_succeeds defaultClient GET "/state/nfl"
         (fresh_world 1000))
  = Return "payload"
  /\ attempts (trace (snd (call second_succeeds defaultClient GET
                             "/state/nfl" (fresh_world 1000)))) = 2%nat
  /\ control (trace (snd (call second_succeeds defaultClient GET
                            "/state/nfl" (fresh_world 1000))))
     = [Send GET "/state/nfl"; Backoff 1000; Send GET "/state/nfl"].
Proof.
  apply (success_short_circuits string string second_succeeds
           defaultClient GET "/state/nfl" (fresh_world 1000) 1
           {| response_status_code := 200; data := "payload" |}).
  - simpl. lia.
  - intros i Hi. assert (i = 0%nat) as -> by lia.
    eexists. split; [reflexivity|].
    unfold terminal_status. simpl. lia.
  - reflexivity.
Defined.

(** ** The rate pacer *)

Lemma spaced_snoc (gap t' : Z) : forall times,
  spaced gap times -> Forall (fun t => t + gap <= t') times ->
  spaced gap (times ++ [t']).
Proof.
  induction times as [|t1 rest IH]; intros Hs Hf; [exact I|].
  inversion Hf as [|? ? H1 Hrest]; subst.
  destruct rest as [|t2 rest].
  - cbn. auto.
  - destruct Hs as [H12 Hs]. split; [exact H12|].
    apply IH; assumption.
Qed.

Section Pacing.

Variables T Any : Type.
Variable net : Network T Any.
Variable this : HttpClient.

(** [sleep] returns no earlier than asked. *)
Lemma sleep_waits (ms : Z) (w : World) :
  clock w + ms <= clock (sleep net ms w).
Proof. cbn. lia. Qed.

(** The pacer does what its three lines say: it waits for
    [minRequestInterval - elapsed] when [elapsed] is short of the
    interval, and stamps the time at which it returns. *)
Lemma enforceRateLimit_steps (w : World) :
  let elapsed := clock w - lastRequestTime w in
  let w' := enforceRateLimit net this w in
  lastRequestTime w' = clock w'
  /\ (elapsed < minRequestInterval this ->
      trace w' = trace w ++ [(clock w, Pace (minRequestInterval this - elapsed))]
      /\ clock w + (minRequestInterval this - elapsed) <= clock w')
  /\ (minRequestInterval this <= elapsed ->
      trace w' = trace w /\ clock w' = clock w).
Proof.
  unfold enforceRateLimit, pacing_delay.
  destruct (Z.ltb_spec (clock w - lastRequestTime w) (minRequestInterval this));
    cbn; repeat split; intros; lia.
Qed.

(** Run alone, the interleaving model of the pacer is [enforceRateLimit]. *)
Lemma enforceRateLimit_alone (w : World) :
  let w' := enforceRateLimit net this w in
  interleave this (lone_schedule this w (lag net (timers w))) (lone_caller w)
  = {| pacer_clock := clock w';
       pacer_lastRequestTime := lastRequestTime w';
       callers := [Sent (clock w')] |}.
Proof.
  unfold enforceRateLimit, lone_schedule, lone_caller.
  destruct (pacing_delay this (clock w) (lastRequestTime w)) as [delay|] eqn:Hd.
  - assert (0 < delay) as Hpos.
    { unfold pacing_delay in Hd.
      destruct (Z.ltb_spec (clock w - lastRequestTime w)
                  (minRequestInterval this)); [|discriminate].
      injection Hd as <-. lia. }
    assert (Henter :
      run_caller this 0
        {| pacer_clock := clock w;
           pacer_lastRequestTime := lastRequestTime w;
           callers := [Waiting] |}
      = {| pacer_clock := clock w;
           pacer_lastRequestTime := lastRequestTime w;
           callers := [Sleeping (clock w + Z.max delay 0)] |}).
    { unfold run_caller.
      cbn [callers nth_error pacer_clock pacer_lastRequestTime].
      rewrite Hd. reflexivity. }
    cbn [interleave fold_left turn]. rewrite Henter.
    cbn [pacer_clock pacer_lastRequestTime callers].
    unfold run_caller.
    cbn [callers nth_error pacer_clock pacer_lastRequestTime set_caller].
    assert ((clock w + Z.max delay 0
             <=? clock w + Z.of_nat (Z.to_nat delay + lag net (timers w)))
            = true) as -> by (apply Z.leb_le; lia).
    cbn [stamp sleep emit clock lastRequestTime].
    replace (clock w + Z.of_nat (Z.to_nat delay + lag net (timers w)))
      with (clock w + Z.max delay 0 + Z.of_nat (lag net (timers w))) by lia.
    reflexivity.
  - cbn [interleave fold_left turn]. unfold run_caller.
    cbn [callers nth_error pacer_clock pacer_lastRequestTime]. rewrite Hd.
    reflexivity.
Qed.

Hypothesis gap_nonneg : 0 <= minRequestInterval this.

(** The pacer moves the remembered time on by the interval at least,
    and returns at that time. *)
Lemma enforceRateLimit_waits (w : World) :
  let w' := enforceRateLimit net this w in
  lastRequestTime w + minRequestInterval this <= lastRequestTime w'
  /\ clock w' = lastRequestTime w'
  /\ send_times (trace w') = send_times (trace w).
Proof.
  unfold enforceRateLimit, pacing_delay.
  destruct (Z.ltb_spec (clock w - lastRequestTime w) (minRequestInterval this));
    cbn [stamp sleep emit lastRequestTime clock trace];
    repeat split; try lia.
  rewrite send_times_app. apply app_nil_r.
Qed.

Lemma client_request_paced (m : Method) (url : string) (w : World) :
  paced this w -> paced this (snd (client_request net this m url w)).
Proof.
  intros [Hs Hf]. unfold client_request, exchange.
  destruct (enforceRateLimit_waits w) as (Hgap & Hclk & Htr).
  set (w1 := enforceRateLimit net this w) in *.
  assert (Hgoal : paced this (emit (Send m url) w1)).
  { unfold paced. cbn [emit trace lastRequestTime clock].
    rewrite send_times_app, Htr.
    change (send_times [(clock w1, Send m url)]) with [clock w1]. split.
    - apply spaced_snoc; auto.
      eapply Forall_impl; [|exact Hf]. cbn. intros; lia.
    - apply Forall_app. split.
      + eapply Forall_impl; [|exact Hf]. cbn. intros; lia.
      + constructor; [lia|constructor]. }
  destruct (answer net (exchanges w1) m url); exact Hgoal.
Qed.

Lemma retry_from_paced (m : Method) (url : string) (fuel : nat) :
  forall attempt lastError w,
    paced this w ->
    paced this
      (snd (retry_from net this fuel (client_request net this m url)
              attempt lastError w)).
Proof.
  induction fuel as [|fuel IH]; intros attempt lastError w Hp;
    cbn [retry_from]; auto.
  destruct (attempt <=? this_retries this); auto.
  pose proof (client_request_paced m url w Hp) as Hp1.
  destruct (client_request net this m url w) as [[response|error] w1];
    auto.
  destruct (client_error error); auto.
  destruct (attempt =? this_retries this); auto.
  apply IH. destruct Hp1 as [Hs Hf].
  split; cbn [sleep emit trace lastRequestTime clock];
    now rewrite send_times_app, app_nil_r.
Qed.

(** Requests made one after the other, retries included, leave at least
    the interval apart. *)
Lemma session_paced (requests : list (Method * string)) : forall w,
  paced this w -> paced this (session net this requests w).
Proof.
  induction requests as [|[m url] rest IH]; intros w Hp; cbn [session]; auto.
  apply IH. now apply retry_from_paced.
Qed.

End Pacing.


(** The two pieces of a caller that has to wait. *)
Lemma run_caller_enter (this : HttpClient) (i : nat) (p : Pacer) (delay : Z) :
  nth_error (callers p) i = Some Waiting ->
  pacing_delay this (pacer_clock p) (pacer_lastRequestTime p) = Some delay ->
  run_caller this i p =
    {| pacer_clock := pacer_clock p;
       pacer_lastRequestTime := pacer_lastRequestTime p;
       callers :=
         set_caller i (Sleeping (pacer_clock p + Z.max delay 0)) (callers p) |}.
Proof. unfold run_caller. now intros -> ->. Qed.

Lemma run_caller_resume (this : HttpClient) (i : nat) (p : Pacer) (due : Z) :
  nth_error (callers p) i = Some (Sleeping due) ->
  due <= pacer_clock p ->
  run_caller this i p =
    {| pacer_clock := pacer_clock p;
       pacer_lastRequestTime := pacer_clock p;
       callers := set_caller i (Sent (pacer_clock p)) (callers p) |}.
Proof.
  unfold run_caller. intros -> Hdue.
  apply Z.leb_le in Hdue. now rewrite Hdue.
Qed.

(** Two calls that enter the pacer while the last request is younger
    than the interval compute the same delay, and leave together when
    their timers have fired. *)
Lemma two_sleepers_leave_together (this : HttpClient) (now last : Z)
    (late : nat) :
  now - last < minRequestInterval this ->
  let delay := minRequestInterval this - (now - last) in
  sent_times
    (interleave this
       [Run 0; Run 1; Elapse (Z.to_nat delay + late); Run 0; Run 1]
       {| pacer_clock := now; pacer_lastRequestTime := last;
          callers := [Waiting; Waiting] |})
  = [now + delay + Z.of_nat late; now + delay + Z.of_nat late].
Proof.
  intros Hshort delay.
  assert (Hd : pacing_delay this now last = Some delay).
  { unfold pacing_delay.
    assert ((now - last <? minRequestInterval this) = true) as ->
        by (apply Z.ltb_lt; exact Hshort).
    reflexivity. }
  assert (Hpos : 0 < delay) by (unfold delay; lia).
  set (wake := now + Z.of_nat (Z.to_nat delay + late)).
  cbn [interleave fold_left turn].
  rewrite (run_caller_enter this 0
             {| pacer_clock := now; pacer_lastRequestTime := last;
                callers := [Waiting; Waiting] |} delay)
    by (reflexivity || exact Hd).
  cbn [pacer_clock pacer_lastRequestTime callers set_caller].
  rewrite (run_caller_enter this 1
             {| pacer_clock := now; pacer_lastRequestTime := last;
                callers := [Sleeping (now + Z.max delay 0); Waiting] |} delay)
    by (reflexivity || exact Hd).
  cbn [pacer_clock pacer_lastRequestTime callers set_caller].
  fold wake.
  rewrite (run_caller_resume this 0
             {| pacer_clock := wake; pacer_lastRequestTime := last;
                callers := [Sleeping (now + Z.max delay 0);
                            Sleeping (now + Z.max delay 0)] |}
             (now + Z.max delay 0))
    by (reflexivity || (cbn [pacer_clock]; unfold wake; lia)).
  cbn [pacer_clock pacer_lastRequestTime callers set_caller].
  rewrite (run_caller_resume this 1
             {| pacer_clock := wake; pacer_lastRequestTime := wake;
                callers := [Sent wake; Sleeping (now + Z.max delay 0)] |}
             (now + Z.max delay 0))
    by (reflexivity || (cbn [pacer_clock]; unfold wake; lia)).
  cbn [pacer_clock pacer_lastRequestTime callers set_caller sent_times
       flat_map app].
  replace wake with (now + delay + Z.of_nat late) by (unfold wake; lia).
  reflexivity.
Qed.

(** C5 fails when calls are in flight together: on a fresh client at
    clock 1000, three calls issued at once enter the pacer in turn; the
    first leaves at 1000, the other two both read [lastRequestTime = 1000],
    both sleep 60 ms, and both leave at 1060, no time apart. *)
Theorem pacing_broken_by_interleaving :
  sent_times (interleave defaultClient promise_all_schedule (three_callers 1000))
    = [1000; 1060; 1060]
  /\ ~ spaced (minRequestInterval defaultClient)
         (sent_times (interleave defaultClient promise_all_schedule
                        (three_callers 1000))).
Proof.
  split; [reflexivity|].
  cbn. lia.
Qed.

(** ** The query-string builder *)

Lemma truthy_append_char (a : string) (c : ascii) (b : string) :
  truthy_string (a ++ String c b)%string = true.
Proof. destruct a; reflexivity. Qed.

Lemma encoded_pair_truthy (kv : string * ParamValue) :
  truthy_string (encoded_pair kv) = true.
Proof. unfold encoded_pair. apply truthy_append_char. Qed.

Lemma truthy_append_l (a b : string) :
  truthy_string a = true -> truthy_string (a ++ b)%string = true.
Proof. destruct a; [discriminate|reflexivity]. Qed.

(** A joined list whose first element is not empty is not empty. *)
Lemma concat_truthy (sep x : string) (xs : list string) :
  truthy_string x = true -> truthy_string (String.concat sep (x :: xs)) = true.
Proof.
  intros Hx. destruct xs; cbn [String.concat]; auto.
  now apply truthy_append_l.
Qed.

Lemma hex_digit_unreserved (c : ascii) :
  unreserved (hex_digit (nat_of_ascii c / 16)) = true
  /\ unreserved (hex_digit (nat_of_ascii c mod 16)) = true.
Proof.
  destruct c as [[] [] [] [] [] [] [] []]; vm_compute; split; reflexivity.
Qed.

Lemma url_safe_app (a b : string) :
  url_safe (a ++ b)%string = url_safe a && url_safe b.
Proof.
  induction a as [|c a IH]; cbn; auto. rewrite IH. apply andb_assoc.
Qed.

(** [encodeURIComponent] leaves nothing but unreserved characters and
    percent escapes. *)
Lemma encodeURIComponent_safe (s : string) :
  url_safe (encodeURIComponent s) = true.
Proof.
  induction s as [|c s IH]; cbn [encodeURIComponent]; auto.
  destruct (unreserved c) eqn:Hc.
  - cbn. now rewrite Hc, IH.
  - rewrite url_safe_app, IH. unfold percent_byte.
    cbn [url_safe]. destruct (hex_digit_unreserved c) as [-> ->].
    reflexivity.
Qed.

Example encodeURIComponent_examples :
  encodeURIComponent "a&b=c/d?" = "a%26b%3Dc%2Fd%3F"
  /\ encodeURIComponent "lookback_hours" = "lookback_hours"
  /\ encodeURIComponent "-_.!~*'()" = "-_.!~*'()".
Proof. repeat split. Qed.

(** C7: [buildQueryString] is the query string of the specification:
    entries with an undefined value are dropped, the rest become
    [encodeURIComponent(key)=encodeURIComponent(String(value))] in
    iteration order, joined with [&] behind a [?], and nothing at all
    when no entry is left; every key and value is percent-encoded; and
    [{a: 1, b: undefined, c: "x y"}] gives ["?a=1&c=x%20y"]. *)
Theorem buildQueryString_spec (params : list (string * ParamValue)) :
  buildQueryString params = query_string_of_spec params
  /\ Forall (fun kv => url_safe (encodeURIComponent (fst kv)) = true
                       /\ url_safe (encodeURIComponent (String_of (snd kv)))
                          = true) params
  /\ buildQueryString
       [("a", PNumber 1); ("b", PUndefined); ("c", PString "x y")]
     = "?a=1&c=x%20y".
Proof.
  split; [|split; [|reflexivity]].
  - unfold buildQueryString, query_string_of_spec.
    rewrite (filter_ext (fun '(_, value) => is_defined value)
               (fun kv => is_defined (snd kv))) by (intros []; reflexivity).
    rewrite (map_ext (fun '(key, value) =>
               (encodeURIComponent key ++ "="
                ++ encodeURIComponent (String_of value))%string) encoded_pair)
      by (intros []; reflexivity).
    destruct (filter _ params) as [|kv kept]; [reflexivity|].
    cbn [map]. rewrite concat_truthy; [reflexivity | apply encoded_pair_truthy].
  - apply Forall_forall. intros kv _.
    split; apply encodeURIComponent_safe.
Qed.

(** ** Fetch-then-filter accessors *)

Lemma insert_by_In {A : Type} (compare : A -> A -> Z) (x y : A) :
  forall sorted,
    In y (insert_by compare x sorted) <-> y = x \/ In y sorted.
Proof.
  induction sorted as [|z sorted IH]; cbn.
  - intuition.
  - destruct (compare x z <=? 0); cbn; rewrite ?IH; intuition.
Qed.

(** Sorting keeps the elements. *)
Lemma Array_sort_In {A : Type} (compare : A -> A -> Z) (y : A) :
  forall xs, In y (Array_sort compare xs) <-> In y xs.
Proof.
  induction xs as [|x xs IH]; cbn; [tauto|].
  unfold Array_sort in IH. rewrite insert_by_In, IH. intuition.
Qed.

(** The loop only collects players that pass the test. *)
Lemma collect_matches_In (test : Player -> bool) (limit : Z) (p : Player) :
  forall players matches,
    In p (collect_matches test limit players matches) ->
    In p matches \/ (In p players /\ test p = true).
Proof.
  induction players as [|q players IH]; intros matches; cbn; auto.
  destruct (limit <=? Z.of_nat (List.length matches)); auto.
  destruct (test q) eqn:Hq; intros H; apply IH in H.
  - rewrite in_app_iff in H. cbn in H.
    destruct H as [[H | [<- | []]] | [H1 H2]]; auto.
  - destruct H as [H | [H1 H2]]; auto.
Qed.

(** An [async] method that awaits a call rejects with what the call
    rejects with, and goes on with what it resolves to. *)
Lemma await_throw {W E A B : Type} (c : W -> Completion E A * W)
    (k : A -> W -> Completion E B * W) (w w' : W) (e : E) :
  c w = (Throw e, w') -> await c k w = (Throw e, w').
Proof. unfold await. now intros ->. Qed.

Lemma await_return {W E A B : Type} (c : W -> Completion E A * W)
    (k : A -> W -> Completion E B * W) (w w' : W) (a : A) :
  c w = (Return a, w') -> await c k w = k a w'.
Proof. unfold await. now intros ->. Qed.



Example quarterbacks :
  fst (getPlayersByPosition (always_answering some_players) defaultClient
         nfl "QB" None (fresh_world 1000))
  = Return (map snd (firstn 1 some_players))
  /\ fst (getPicksByRound (always_answering some_picks) defaultClient
            "d1" 2 (fresh_world 1000))
     = Return (skipn 1 some_picks).
Proof. split; reflexivity. Qed.

(** ** [SleeperSDK] *)

(** C9: whatever configuration the SDK is built with, [getClientConfig]
    reports the four defaults, while the client runs with the values it
    was given; so the report is the same for any two configurations. *)
Theorem getClientConfig_reports_defaults (config config' : HttpClientConfig) :
  getClientConfig (newSleeperSDK config) =
    {| baseURL := Some "https://api.sleeper.app/v1";
       timeout := Some 10000;
       retries := Some 3;
       retryDelay := Some 1000 |}
  /\ getClientConfig (newSleeperSDK config)
     = getClientConfig (newSleeperSDK config')
  /\ config_in_effect (newSleeperSDK config) =
    {| baseURL := Some (default "https://api.sleeper.app/v1" (baseURL config));
       timeout := Some (default 10000 (timeout config));
       retries := Some (default 3 (retries config));
       retryDelay := Some (default 1000 (retryDelay config)) |}.
Proof. repeat split. Qed.

(** Built with five retries, the client retries five times and the SDK
    reports three. *)
Example five_retries_reported_as_three :
  retries (getClientConfig (newSleeperSDK five_retries)) = Some 3
  /\ retries (config_in_effect (newSleeperSDK five_retries)) = Some 5.
Proof. split; reflexivity. Qed.

(** ** The estimated week *)

Lemma month_cases (m : Z) :
  0 <= m <= 11 ->
  m = 0 \/ m = 1 \/ m = 2 \/ m = 3 \/ m = 4 \/ m = 5 \/ m = 6 \/ m = 7
  \/ m = 8 \/ m = 9 \/ m = 10 \/ m = 11.
Proof. lia. Qed.

(** On the calendar, [now] is before September 7 exactly when its day
    count is negative. *)
Lemma days_into_season_sign (now : Date) :
  valid_date now ->
  (days_into_season now < 0 <->
     month now < 8 \/ (month now = 8 /\ date now < 7)).
Proof.
  intros (Hm & Hd & _). unfold days_into_season, MakeDay.
  destruct (month_cases _ Hm) as
    [H|[H|[H|[H|[H|[H|[H|[H|[H|[H|[H|H]]]]]]]]]]];
    rewrite H in *; destruct (InLeapYear (fullYear now));
    vm_compute DaysBeforeMonth; vm_compute DaysInMonth in Hd; lia.
Qed.

Lemma seasonStart_year (now : Date) :
  plain_year (fullYear now) -> fullYear (seasonStart now) = fullYear now.
Proof.
  unfold plain_year, seasonStart, newDate. cbn [fullYear]. intros H.
  destruct (Z.leb_spec 0 (fullYear now)); cbn [andb]; auto.
  destruct (Z.leb_spec (fullYear now) 99); auto. lia.
Qed.

Lemma getTime_difference (now : Date) :
  plain_year (fullYear now) ->
  getTime now - getTime (seasonStart now) =
  days_into_season now * msPerDay + msOfDay now.
Proof.
  intros Hy. unfold getTime, days_into_season.
  rewrite (seasonStart_year now Hy). cbn [seasonStart newDate month date msOfDay].
  lia.
Qed.

Lemma before_season_iff (now : Date) :
  plain_year (fullYear now) ->
  0 <= msOfDay now < msPerDay ->
  (getTime now < getTime (seasonStart now) <-> days_into_season now < 0).
Proof.
  intros Hy Hms. pose proof (getTime_difference now Hy) as Hd.
  unfold msPerDay in *. nia.
Qed.

(** Whole weeks of milliseconds are whole weeks of days. *)
Lemma whole_weeks (now : Date) :
  plain_year (fullYear now) ->
  0 <= msOfDay now < msPerDay ->
  (getTime now - getTime (seasonStart now)) / msPerWeek
  = days_into_season now / 7.
Proof.
  intros Hy Hms. rewrite getTime_difference by exact Hy.
  change msPerWeek with (msPerDay * 7).
  rewrite <- Z.div_div by (unfold msPerDay; lia).
  f_equal. rewrite Z.div_add_l by (unfold msPerDay; lia).
  rewrite Z.div_small by exact Hms. lia.
Qed.



(** * Further properties of the code *)

(** ** Every run of the retry loop *)

Lemma backoffs_app (tr1 tr2 : list (Z * Action)) :
  backoffs (tr1 ++ tr2) = backoffs tr1 ++ backoffs tr2.
Proof. unfold backoffs. apply flat_map_app. Qed.

Lemma paces_app (tr1 tr2 : list (Z * Action)) :
  paces (tr1 ++ tr2) = paces tr1 ++ paces tr2.
Proof. unfold paces. apply flat_map_app. Qed.

Lemma total_app (xs ys : list Z) : total (xs ++ ys) = total xs + total ys.
Proof. unfold total. induction xs as [|x xs IH]; cbn in *; lia. Qed.

(** The waits a retry script asks for. *)
Lemma backoffs_of_script (m : Method) (url : string) (d : Z) (k : nat) :
  forall attempt,
    flat_map (fun a => match a with Backoff ms => [ms] | _ => [] end)
      (retry_script m url d attempt k)
    = map (fun i => d * 2 ^ (attempt + Z.of_nat i)) (seq 0 k).
Proof.
  induction k as [|k IH]; intros attempt; [reflexivity|].
  rewrite retry_script_S. cbn [flat_map app seq map].
  rewrite IH, Z.add_0_r. f_equal.
  rewrite <- seq_shift, map_map. apply map_ext. intros i.
  do 2 f_equal. lia.
Qed.

(** A geometric sum. *)
Lemma total_geometric (d : Z) (k : nat) :
  total (map (fun i => d * 2 ^ Z.of_nat i) (seq 0 k))
  = d * (2 ^ Z.of_nat k - 1).
Proof.
  induction k as [|k IH]; [cbn; lia|].
  rewrite seq_S, map_app, total_app, IH. cbn [map total fold_right Nat.add].
  rewrite Nat2Z.inj_succ, Z.pow_succ_r by lia. lia.
Qed.

Section Runs.

Variables T Any : Type.
Variable net : Network T Any.
Variable this : HttpClient.
Variable m : Method.
Variable url : string.

(** Every run of the loop with attempts left ends at some attempt, and
    leaves the requests and backoffs up to it in the trace. *)
Lemma retry_from_run (fuel : nat) : forall attempt lastError w,
  0 <= attempt <= this_retries this ->
  (Z.to_nat (this_retries this - attempt) < fuel)%nat ->
  exists j,
    run_ends net this m url attempt w j
      (fst (retry_from net this fuel (client_request net this m url)
              attempt lastError w))
    /\ control (trace (snd (retry_from net this fuel
                              (client_request net this m url)
                              attempt lastError w))) =
         control (trace w)
         ++ retry_script m url (this_retryDelay this) attempt j
         ++ [Send m url].
Proof.
  induction fuel as [|fuel IH]; intros attempt lastError w Ha Hfuel; [lia|].
  cbn [retry_from].
  assert ((attempt <=? this_retries this) = true) as ->
      by (apply Z.leb_le; lia).
  destruct (client_request_spec T Any net this m url w)
    as (w1 & Hreq & Hex & Hctl).
  rewrite Hreq.
  destruct (answer net (exchanges w) m url) as [error|response] eqn:Hans.
  - destruct (client_error (responseErrorInterceptor error)) eqn:Hce.
    { exists 0%nat. split.
      - unfold run_ends. rewrite Nat.add_0_r, Hans. cbn [fst].
        split; [lia|]. split; [intros; lia|]. auto.
      - cbn [snd retry_script seq flat_map app]. exact Hctl. }
    destruct (Z.eqb_spec attempt (this_retries this)) as [Heq|Hne].
    { exists 0%nat. split.
      - unfold run_ends. rewrite Nat.add_0_r, Hans. cbn [fst].
        split; [lia|]. split; [intros; lia|]. split; auto. right. lia.
      - cbn [snd retry_script seq flat_map app]. exact Hctl. }
    set (delay := this_retryDelay this * 2 ^ attempt).
    set (w2 := sleep net delay (emit (Backoff delay) w1)).
    destruct (IH (attempt + 1) (Some (responseErrorInterceptor error)) w2)
      as (j & (Hj & Hprev & Hlast) & Hshape); [lia | lia |].
    assert (Hex2 : exchanges w2 = S (exchanges w)) by (subst w2; cbn; lia).
    exists (S j). split.
    + unfold run_ends. split; [lia|]. split.
      * intros [|i] Hi.
        -- exists (responseErrorInterceptor error). unfold failure_of.
           rewrite Nat.add_0_r, Hans. auto.
        -- destruct (Hprev i) as (e & He & Hce'); [lia|].
           exists e. split; auto.
           replace (exchanges w + S i)%nat with (exchanges w2 + i)%nat by lia.
           exact He.
      * replace (exchanges w + S j)%nat with (exchanges w2 + j)%nat by lia.
        destruct (answer net (exchanges w2 + j) m url).
        -- destruct Hlast as [Hres [Hc|Hc]]; split; auto. right. lia.
        -- exact Hlast.
    + rewrite Hshape, retry_script_S. subst w2.
      cbn [sleep emit trace]. rewrite control_app, Hctl.
      rewrite <- !app_assoc. reflexivity.
  - exists 0%nat. split.
    + unfold run_ends. rewrite Nat.add_0_r, Hans. cbn [fst].
      split; [lia|]. split; [intros; lia|]. reflexivity.
    + cbn [snd retry_script seq flat_map app]. exact Hctl.
Qed.

(** A call is a run of the loop from attempt 0 with enough fuel. *)
Lemma call_run (w : World) :
  0 <= this_retries this ->
  exists j,
    run_ends net this m url 0 w j (fst (call net this m url w))
    /\ control (trace (snd (call net this m url w))) =
         control (trace w)
         ++ retry_script m url (this_retryDelay this) 0 j
         ++ [Send m url]
    /\ backoffs (trace (snd (call net this m url w))) =
         backoffs (trace w)
         ++ map (fun i => this_retryDelay this * 2 ^ Z.of_nat i) (seq 0 j).
Proof.
  intros HR. unfold call, executeWithRetry.
  destruct (retry_from_run (S (Z.to_nat (this_retries this + 1))) 0 None w)
    as (j & Hends & Hshape); [lia | lia |].
  exists j. split; [exact Hends|]. split; [exact Hshape|].
  rewrite !backoffs_control, Hshape, !flat_map_app, backoffs_of_script.
  cbn [flat_map app]. rewrite app_nil_r. reflexivity.
Qed.

(** X1: whatever the network answers, a call with a retry count that is
    a count sends between one and [retries + 1] requests, waits after
    each but the last for [retryDelay * 2 ^ i], and does nothing else
    besides pacing. *)
Theorem call_shape (w : World) :
  0 <= this_retries this ->
  exists j,
    Z.of_nat j <= this_retries this
    /\ control (trace (snd (call net this m url w))) =
         control (trace w)
         ++ retry_script m url (this_retryDelay this) 0 j
         ++ [Send m url]
    /\ attempts (trace (snd (call net this m url w))) =
         (attempts (trace w) + j + 1)%nat
    /\ backoffs (trace (snd (call net this m url w))) =
         backoffs (trace w)
         ++ map (fun i => this_retryDelay this * 2 ^ Z.of_nat i) (seq 0 j).
Proof.
  intros HR.
  destruct (call_run w HR) as (j & (Hj & _) & Hshape & Hwaits).
  exists j. split; [lia|]. split; [exact Hshape|]. split; [|exact Hwaits].
  rewrite !attempts_control, Hshape, !filter_app, !length_app.
  rewrite sending_retry_script. cbn. lia.
Qed.

(** X2: a call ends at some attempt [j] within the ceiling.  Every
    exchange before it failed without a client error; exchange [j]
    decides: its body is the result, or its classified error is thrown,
    which happens only for a client error or on the last allowed
    attempt.  So a rejection always carries the error of the last
    request sent. *)
Theorem call_outcome (w : World) :
  0 <= this_retries this ->
  exists j,
    run_ends net this m url 0 w j (fst (call net this m url w))
    /\ attempts (trace (snd (call net this m url w)))
       = (attempts (trace w) + j + 1)%nat.
Proof.
  intros HR.
  destruct (call_run w HR) as (j & Hends & Hshape & _).
  exists j. split; [exact Hends|].
  rewrite !attempts_control, Hshape, !filter_app, !length_app.
  rewrite sending_retry_script. cbn. lia.
Qed.

End Runs.

Lemma call_shape_witness :
  exists j,
    Z.of_nat j <= 3
    /\ control (trace (snd (call second_succeeds defaultClient GET
                              "/state/nfl" (fresh_world 1000)))) =
         retry_script GET "/state/nfl" 1000 0 j ++ [Send GET "/state/nfl"]
    /\ attempts (trace (snd (call second_succeeds defaultClient GET
                               "/state/nfl" (fresh_world 1000)))) =
         (j + 1)%nat
    /\ backoffs (trace (snd (call second_succeeds defaultClient GET
                               "/state/nfl" (fresh_world 1000)))) =
         map (fun i => 1000 * 2 ^ Z.of_nat i) (seq 0 j).
Proof.
  apply (call_shape string string second_succeeds defaultClient GET
           "/state/nfl" (fresh_world 1000)).
  simpl. lia.
Defined.

Lemma call_outcome_witness :
  exists j,
    run_ends (always_failing 503) (client_with 2 100) GET "/state/nfl" 0
      (fresh_world 1000) j
      (fst (call (always_failing 503) (client_with 2 100) GET "/state/nfl"
              (fresh_world 1000)))
    /\ attempts (trace (snd (call (always_failing 503) (client_with 2 100)
                               GET "/state/nfl" (fresh_world 1000))))
       = (j + 1)%nat.
Proof.
  apply (call_outcome string string (always_failing 503) (client_with 2 100)
           GET "/state/nfl" (fresh_world 1000)).
  simpl. lia.
Defined.

Section Bounds.

Variables T Any : Type.
Variable net : Network T Any.
Variable this : HttpClient.
Variable m : Method.
Variable url : string.

Lemma enforceRateLimit_clock (w : World) :
  clock w <= clock (enforceRateLimit net this w)
  /\ backoffs (trace (enforceRateLimit net this w)) = backoffs (trace w).
Proof.
  unfold enforceRateLimit. destruct pacing_delay;
    cbn [stamp sleep emit clock trace].
  - rewrite backoffs_app. cbn. rewrite app_nil_r. split; [lia|reflexivity].
  - split; [lia|reflexivity].
Qed.

Lemma client_request_clock (w : World) :
  clock w <= clock (snd (client_request net this m url w))
  /\ backoffs (trace (snd (client_request net this m url w)))
     = backoffs (trace w).
Proof.
  unfold client_request, exchange.
  destruct (enforceRateLimit_clock w) as [Hc Hb].
  destruct (answer net (exchanges (enforceRateLimit net this w)) m url);
    cbn [snd clock trace emit]; rewrite backoffs_app, Hb; cbn;
    rewrite app_nil_r; split; (lia || reflexivity).
Qed.

(** A run lasts at least as long as the waits it asked for. *)
Lemma retry_from_clock (fuel : nat) : forall attempt lastError w,
  0 <= this_retryDelay this -> 0 <= attempt ->
  clock w
  + (total (backoffs (trace (snd (retry_from net this fuel
                                    (client_request net this m url)
                                    attempt lastError w))))
     - total (backoffs (trace w)))
  <= clock (snd (retry_from net this fuel (client_request net this m url)
                   attempt lastError w)).
Proof.
  induction fuel as [|fuel IH]; intros attempt lastError w Hd Ha;
    cbn [retry_from]; [cbn [snd]; lia|].
  destruct (attempt <=? this_retries this); [|cbn [snd]; lia].
  destruct (client_request_clock w) as [Hc Hb].
  destruct (client_request net this m url w) as [[response|error] w1];
    cbn [snd] in *; [rewrite Hb; lia|].
  destruct (client_error error); [cbn [snd]; rewrite Hb; lia|].
  destruct (attempt =? this_retries this); [cbn [snd]; rewrite Hb; lia|].
  set (delay := this_retryDelay this * 2 ^ attempt).
  assert (0 <= delay) by (unfold delay; apply Z.mul_nonneg_nonneg; lia).
  specialize (IH (attempt + 1) (Some error)
                (sleep net delay (emit (Backoff delay) w1)) Hd ltac:(lia)).
  cbn [sleep emit clock trace] in IH. rewrite backoffs_app in IH.
  change (backoffs [(clock w1, Backoff delay)]) with [delay] in IH.
  rewrite total_app, Hb in IH. cbn [total fold_right] in IH.
  cbn [sleep emit clock trace]. lia.
Qed.


(** What one request adds to the pacer's waits, and where it leaves the
    clock. *)
Lemma client_request_paces (w : World) :
  let w1 := snd (client_request net this m url w) in
  paces (trace w1)
  = paces (trace w)
    ++ match pacing_delay this (clock w) (lastRequestTime w) with
       | Some delay => [delay]
       | None => []
       end
  /\ lastRequestTime w1 <= clock w1.
Proof.
  unfold client_request, exchange, enforceRateLimit.
  destruct (pacing_delay this (clock w) (lastRequestTime w)) as [delay|];
    match goal with |- context [answer net ?i m url] =>
      destruct (answer net i m url) end;
    cbn [snd stamp sleep emit trace clock lastRequestTime];
    rewrite ?paces_app; cbn [paces flat_map snd app];
    rewrite ?app_nil_r; split; (reflexivity || lia).
Qed.

(** From an idle client on, a run never waits in the pacer: each
    backoff is at least the interval. *)
Lemma retry_from_idle (fuel : nat) : forall attempt lastError w,
  0 <= attempt -> 0 <= this_retryDelay this ->
  minRequestInterval this <= this_retryDelay this ->
  minRequestInterval this <= clock w - lastRequestTime w ->
  paces (trace (snd (retry_from net this fuel (client_request net this m url)
                       attempt lastError w)))
  = paces (trace w).
Proof.
  induction fuel as [|fuel IH]; intros attempt lastError w Ha Hd Hmin Hidle;
    cbn [retry_from]; [reflexivity|].
  destruct (attempt <=? this_retries this); [|reflexivity].
  destruct (client_request_paces w) as [Hp Hclock].
  assert (Hnone : pacing_delay this (clock w) (lastRequestTime w) = None).
  { unfold pacing_delay.
    destruct (Z.ltb_spec (clock w - lastRequestTime w)
                (minRequestInterval this)); [lia|reflexivity]. }
  rewrite Hnone, app_nil_r in Hp.
  destruct (client_request net this m url w) as [[response|error] w1];
    cbn [snd] in *; [exact Hp|].
  destruct (client_error error); [exact Hp|].
  destruct (attempt =? this_retries this); [exact Hp|].
  set (delay := this_retryDelay this * 2 ^ attempt).
  assert (this_retryDelay this <= delay).
  { unfold delay. assert (0 < 2 ^ attempt) by (apply Z.pow_pos_nonneg; lia).
    nia. }
  rewrite IH; try lia.
  - cbn [sleep emit trace]. rewrite paces_app. cbn [paces flat_map snd app].
    now rewrite app_nil_r.
  - cbn [sleep emit clock lastRequestTime]. lia.
Qed.


End Bounds.



(** With [retries = -1] nothing is sent and [undefined] is thrown. *)
Lemma call_negative_retries_witness :
  call (always_failing 503) no_attempts_client GET "/state/nfl"
    (fresh_world 1000)
  = (Throw None, fresh_world 1000).
Proof.
  apply (call_negative_retries string string (always_failing 503)
           no_attempts_client GET "/state/nfl" (fresh_world 1000)).
  simpl. lia.
Defined.

(** ** Reading a query string back *)

(** A character other than [%] decodes to itself. *)
Lemma decode_plain (c : ascii) (rest : string) :
  c <> "%"%char ->
  decodeURIComponent (String c rest) =
  match decodeURIComponent rest with
  | Some decoded => Some (String c decoded)
  | None => None
  end.
Proof.
  intros Hc.
  destruct c as [[] [] [] [] [] [] [] []]; try reflexivity.
  contradiction Hc. reflexivity.
Qed.

Lemma decode_escape (h l : ascii) (rest : string) :
  decodeURIComponent (String "%" (String h (String l rest))) =
  match hex_value h, hex_value l, decodeURIComponent rest with
  | Some hi, Some lo, Some decoded =>
      Some (String (ascii_of_nat (16 * hi + lo)) decoded)
  | _, _, _ => None
  end.
Proof. reflexivity. Qed.

(** The two digits [percent_byte] writes spell the byte. *)
Lemma hex_digits_spell (c : ascii) :
  exists hi lo,
    hex_value (hex_digit (nat_of_ascii c / 16)) = Some hi
    /\ hex_value (hex_digit (nat_of_ascii c mod 16)) = Some lo
    /\ ascii_of_nat (16 * hi + lo) = c.
Proof.
  destruct c as [[] [] [] [] [] [] [] []];
    vm_compute; do 2 eexists; repeat split; reflexivity.
Qed.

Lemma unreserved_not_percent (c : ascii) :
  unreserved c = true -> c <> "%"%char.
Proof. intros H ->. discriminate H. Qed.

(** Decoding undoes encoding. *)
Lemma decode_encode (s : string) :
  decodeURIComponent (encodeURIComponent s) = Some s.
Proof.
  induction s as [|c s IH]; [reflexivity|].
  cbn [encodeURIComponent]. destruct (unreserved c) eqn:Hc.
  - rewrite decode_plain by (now apply unreserved_not_percent).
    now rewrite IH.
  - unfold percent_byte. cbn [append]. rewrite decode_escape.
    destruct (hex_digits_spell c) as (hi & lo & -> & -> & ->).
    now rewrite IH.
Qed.

Lemma lacks_app (c : ascii) (a b : string) :
  lacks c (a ++ b)%string = lacks c a && lacks c b.
Proof.
  unfold lacks. induction a as [|x a IH]; cbn; auto.
  rewrite IH. apply andb_assoc.
Qed.

(** A reserved character other than [%] is in no encoded string. *)
Lemma url_safe_lacks (c : ascii) (s : string) :
  unreserved c = false -> c <> "%"%char ->
  url_safe s = true -> lacks c s = true.
Proof.
  intros Hu Hp. unfold lacks. induction s as [|x s IH]; cbn; auto.
  intros H. apply andb_true_iff in H. destruct H as [Hx Hs].
  rewrite IH by exact Hs. rewrite andb_true_r.
  apply negb_true_iff. apply Ascii.eqb_neq. intros ->.
  rewrite Hu in Hx. cbn [orb] in Hx.
  apply Ascii.eqb_eq in Hx. contradiction.
Qed.

Lemma split_on_lacking (sep : ascii) (a : string) :
  lacks sep a = true -> split_on sep a = [a].
Proof.
  unfold lacks. induction a as [|x a IH]; cbn; auto.
  intros H. apply andb_true_iff in H. destruct H as [Hx Ha].
  apply negb_true_iff in Hx. rewrite Hx, IH by exact Ha. reflexivity.
Qed.

Lemma split_on_first (sep : ascii) (a b : string) :
  lacks sep a = true ->
  split_on sep (a ++ String sep b)%string = a :: split_on sep b.
Proof.
  unfold lacks. induction a as [|x a IH]; cbn.
  - intros _. now rewrite Ascii.eqb_refl.
  - intros H. apply andb_true_iff in H. destruct H as [Hx Ha].
    apply negb_true_iff in Hx. rewrite Hx, IH by exact Ha. reflexivity.
Qed.

Lemma encoded_lacks (c : ascii) (s : string) :
  unreserved c = false -> c <> "%"%char ->
  lacks c (encodeURIComponent s) = true.
Proof.
  intros Hu Hp. apply url_safe_lacks; auto. apply encodeURIComponent_safe.
Qed.

Lemma parse_encoded_pair (kv : string * ParamValue) :
  parse_pair (encoded_pair kv) = Some (fst kv, String_of (snd kv)).
Proof.
  unfold parse_pair, encoded_pair.
  change (encodeURIComponent (fst kv) ++ "="
          ++ encodeURIComponent (String_of (snd kv)))%string
    with (encodeURIComponent (fst kv)
          ++ String "=" (encodeURIComponent (String_of (snd kv))))%string.
  rewrite split_on_first
    by (apply encoded_lacks; [reflexivity | discriminate]).
  rewrite split_on_lacking
    by (apply encoded_lacks; [reflexivity | discriminate]).
  now rewrite !decode_encode.
Qed.

Lemma encoded_pair_lacks_amp (kv : string * ParamValue) :
  lacks "&" (encoded_pair kv) = true.
Proof.
  unfold encoded_pair. rewrite !lacks_app.
  rewrite !encoded_lacks by (reflexivity || discriminate). reflexivity.
Qed.

Lemma parse_joined (kv : string * ParamValue) :
  forall kept,
    parse_pairs
      (split_on "&" (String.concat "&" (map encoded_pair (kv :: kept))))
    = Some (map (fun kv => (fst kv, String_of (snd kv))) (kv :: kept)).
Proof.
  intros kept. revert kv.
  induction kept as [|kv' kept IH]; intros kv.
  - cbn [map String.concat].
    rewrite split_on_lacking by apply encoded_pair_lacks_amp.
    cbn [parse_pairs]. now rewrite parse_encoded_pair.
  - change (String.concat "&" (map encoded_pair (kv :: kv' :: kept)))
      with (encoded_pair kv ++ String "&"
              (String.concat "&" (map encoded_pair (kv' :: kept))))%string.
    rewrite split_on_first by apply encoded_pair_lacks_amp.
    cbn [parse_pairs]. rewrite parse_encoded_pair, IH. reflexivity.
Qed.

(** [buildQueryString] written with [encoded_pair]. *)
Lemma buildQueryString_pairs (params : list (string * ParamValue)) :
  buildQueryString params =
  match map encoded_pair (filter (fun kv => is_defined (snd kv)) params) with
  | [] => ""
  | pairs => ("?" ++ String.concat "&" pairs)%string
  end.
Proof.
  unfold buildQueryString.
  rewrite (filter_ext (fun '(_, value) => is_defined value)
             (fun kv => is_defined (snd kv))) by (intros []; reflexivity).
  rewrite (map_ext (fun '(key, value) =>
             (encodeURIComponent key ++ "="
              ++ encodeURIComponent (String_of value))%string) encoded_pair)
    by (intros []; reflexivity).
  destruct (filter _ params) as [|kv kept]; [reflexivity|].
  cbn [map]. rewrite concat_truthy; [reflexivity | apply encoded_pair_truthy].
Qed.

(** X7: a query string can be read back.  Cutting what
    [buildQueryString] wrote at each [&] and at the [=] of each piece
    and decoding the halves gives the defined entries, in their order,
    each value as [String(value)]: no key or value can bring in a
    separator.  So two parameter objects get the same query string only
    when they hold the same defined entries. *)
Theorem buildQueryString_reads_back
    (params params' : list (string * ParamValue)) :
  parse_query (buildQueryString params) = Some (written_entries params)
  /\ (buildQueryString params = buildQueryString params' ->
      written_entries params = written_entries params').
Proof.
  assert (Hback : forall p,
             parse_query (buildQueryString p) = Some (written_entries p)).
  { intros p. rewrite buildQueryString_pairs. unfold written_entries.
    destruct (filter _ p) as [|kv kept]; [reflexivity|].
    cbn [map append parse_query]. apply (parse_joined kv kept). }
  split; [apply Hback|].
  intros Heq. pose proof (Hback params) as H1. rewrite Heq, Hback in H1.
  now injection H1.
Qed.

(** ** Identifier checks *)

Lemma digit_unreserved (c : ascii) : is_digit c = true -> unreserved c = true.
Proof.
  unfold is_digit, unreserved. intros H. cbv zeta in *. rewrite H.
  now rewrite !orb_true_r.
Qed.

Lemma upper_unreserved (c : ascii) : is_upper c = true -> unreserved c = true.
Proof.
  unfold is_upper, unreserved. intros H. cbv zeta in *. rewrite H.
  reflexivity.
Qed.

Lemma every_unreserved_fixed (s : string) :
  every unreserved s = true -> encodeURIComponent s = s.
Proof.
  induction s as [|c s IH]; cbn; auto.
  intros H. apply andb_true_iff in H. destruct H as [Hc Hs].
  now rewrite Hc, IH.
Qed.

Lemma every_impl (p q : ascii -> bool) (s : string) :
  (forall c, p c = true -> q c = true) ->
  every p s = true -> every q s = true.
Proof.
  intros Hpq. induction s as [|c s IH]; cbn; auto.
  intros H. apply andb_true_iff in H. destruct H as [Hc Hs].
  now rewrite (Hpq c Hc), IH.
Qed.

(** X8: the four identifier checks.  User, league and draft ids pass the
    same test; whatever passes as a user id passes as a player id; and an
    id that passes any of them is not empty and needs no escaping in a
    URL: [encodeURIComponent] leaves it as it is. *)
Theorem valid_ids_need_no_escaping (id : string) :
  isValidLeagueId id = isValidUserId id
  /\ isValidDraftId id = isValidUserId id
  /\ (isValidUserId id = true -> isValidPlayerId id = true)
  /\ (isValidPlayerId id = true ->
      id <> "" /\ encodeURIComponent id = id).
Proof.
  unfold isValidUserId, isValidLeagueId, isValidDraftId, isValidPlayerId.
  split; [reflexivity|]. split; [reflexivity|].
  split; [intros ->; reflexivity|].
  intros H. apply orb_true_iff in H. destruct H as [H | H].
  - unfold digits_only in H. apply andb_true_iff in H. destruct H as [Hne Hd].
    split; [intros ->; discriminate Hne|].
    apply every_unreserved_fixed.
    eapply every_impl; [exact digit_unreserved | exact Hd].
  - unfold team_abbreviation in H. apply andb_true_iff in H.
    destruct H as [Hlen Hu].
    split; [intros ->; discriminate Hlen|].
    apply every_unreserved_fixed.
    eapply every_impl; [exact upper_unreserved | exact Hu].
Qed.

(** ** Avatar URLs *)

Lemma append_cancel (p a b : string) :
  (p ++ a)%string = (p ++ b)%string -> a = b.
Proof.
  induction p as [|c p IH]; cbn; auto.
  intros H. injection H as H. auto.
Qed.

Lemma append_cancel_some (p a b : string) :
  Some (p ++ a)%string = Some (p ++ b)%string -> a = b.
Proof. intros H. injection H as H. now apply append_cancel in H. Qed.

(** What each of the three helpers computes. *)
Lemma avatar_url_cases (avatarId : option string) (thumbnail : option bool) :
  SleeperSDK_getAvatarUrl avatarId thumbnail =
  match avatarId with
  | Some (String c rest) =>
      Some ("https://sleepercdn.com/avatars"
            ++ (if default false thumbnail then "/thumbs/" else "/")
            ++ String c rest)%string
  | _ => None
  end.
Proof. destruct avatarId as [[|c rest]|]; reflexivity. Qed.

(** X9: the three avatar helpers ([SleeperSDK.getAvatarUrl],
    [UserService.getAvatarUrl], [LeagueService.getLeagueAvatarUrl]) are
    one function.  It answers [null] exactly for a null or empty id, and
    for one choice of [thumbnail] different ids get different URLs. *)
Theorem avatar_helpers (avatarId : option string) (thumbnail : option bool) :
  UserService_getAvatarUrl avatarId thumbnail
    = SleeperSDK_getAvatarUrl avatarId thumbnail
  /\ getLeagueAvatarUrl avatarId thumbnail
    = SleeperSDK_getAvatarUrl avatarId thumbnail
  /\ (SleeperSDK_getAvatarUrl avatarId thumbnail = None
      <-> avatarId = None \/ avatarId = Some "")
  /\ (forall other,
        SleeperSDK_getAvatarUrl avatarId thumbnail <> None ->
        SleeperSDK_getAvatarUrl avatarId thumbnail
          = SleeperSDK_getAvatarUrl other thumbnail ->
        avatarId = other).
Proof.
  split; [reflexivity|]. split; [reflexivity|].
  rewrite avatar_url_cases. split.
  - destruct avatarId as [[|c rest]|].
    + split; auto.
    + split; [discriminate|]. intros [H | H]; discriminate.
    + split; auto.
  - intros other Hsome H. rewrite avatar_url_cases in H.
    destruct avatarId as [[|c rest]|]; try contradiction.
    destruct other as [[|c' rest']|]; try discriminate.
    apply append_cancel_some in H.
    destruct (default false thumbnail).
    + apply (append_cancel "/thumbs/") in H. now rewrite H.
    + apply (append_cancel "/") in H. now rewrite H.
Qed.

Section UserAvatar.

Variable Any : Type.
Variable net : Network SleeperUser Any.
Variable httpClient : HttpClient.

(** X10: [getUserWithAvatar] is [getUser] and nothing more on the wire:
    when the fetch rejects, the same error and the same world come back;
    when it resolves, the user comes back unchanged with an [avatarUrl]
    beside it, which is [null] exactly when the user's [avatar] is null
    or empty. *)
Theorem getUserWithAvatar_adds_url (usernameOrId : string)
    (thumbnail : option bool) (w : World) :
  match getUser net httpClient usernameOrId w with
  | (Throw e, w') =>
      getUserWithAvatar net httpClient usernameOrId thumbnail w
      = (Throw e, w')
  | (Return user, w') =>
      exists avatarUrl,
        getUserWithAvatar net httpClient usernameOrId thumbnail w
        = (Return (user, avatarUrl), w')
        /\ avatarUrl = SleeperSDK_getAvatarUrl (avatar user) thumbnail
        /\ (avatarUrl = None
            <-> avatar user = None \/ avatar user = Some "")
  end.
Proof.
  destruct (getUser net httpClient usernameOrId w) as [[user|e] w'] eqn:H.
  - eexists. split.
    { unfold getUserWithAvatar. rewrite (await_return _ _ _ _ _ H).
      reflexivity. }
    assert (Hsame : UserService_getAvatarUrl (avatar user)
                      (Some (default false thumbnail))
                    = SleeperSDK_getAvatarUrl (avatar user) thumbnail)
      by (destruct thumbnail; reflexivity).
    split; [exact Hsame|]. rewrite Hsame, avatar_url_cases.
    destruct (avatar user) as [[|c rest]|].
    + split; auto.
    + split; [discriminate|]. intros [H' | H']; discriminate.
    + split; auto.
  - unfold getUserWithAvatar. now apply await_throw.
Qed.

End UserAvatar.

(** ** Season and week *)

(** X11: within one calendar year the estimated week never goes back:
    a later instant of the same year has the same week or a later one. *)
Theorem week_never_goes_back (earlier later : Date) :
  fullYear earlier = fullYear later ->
  getTime earlier <= getTime later ->
  getEstimatedNFLWeek earlier <= getEstimatedNFLWeek later.
Proof.
  intros Hy Ht. unfold getEstimatedNFLWeek. rewrite Hy.
  set (start := getTime (newDate (fullYear later) 8 7)).
  destruct (Z.ltb_spec (getTime earlier) start);
    destruct (Z.ltb_spec (getTime later) start); try lia.
  assert ((getTime earlier - start) / (1000 * 60 * 60 * 24 * 7)
          <= (getTime later - start) / (1000 * 60 * 60 * 24 * 7))
    by (apply Z.div_le_mono; lia).
  lia.
Qed.

Lemma week_never_goes_back_witness :
  getEstimatedNFLWeek mid_march <= getEstimatedNFLWeek october_first.
Proof.
  apply (week_never_goes_back mid_march october_first).
  - reflexivity.
  - vm_compute. discriminate.
Defined.

(** The estimate on the calendar. *)
Lemma week_on_calendar (now : Date) :
  valid_date now -> plain_year (fullYear now) ->
  (month now < 8 \/ (month now = 8 /\ date now < 7) ->
   getEstimatedNFLWeek now = 1)
  /\ (month now > 8 \/ (month now = 8 /\ date now >= 7) ->
      getEstimatedNFLWeek now = Z.min (days_into_season now / 7 + 1) 17).
Proof.
  intros Hv Hy.
  pose proof (days_into_season_sign now Hv) as Hsign.
  pose proof (before_season_iff now Hy (proj2 (proj2 Hv))) as Hiff.
  unfold getEstimatedNFLWeek. fold (seasonStart now).
  change (1000 * 60 * 60 * 24 * 7) with msPerWeek.
  split; intros Hcal.
  - assert ((getTime now <? getTime (seasonStart now)) = true) as ->
        by (apply Z.ltb_lt, Hiff, Hsign, Hcal).
    reflexivity.
  - assert (0 <= days_into_season now) as Hdays.
    { destruct (Z.lt_ge_cases (days_into_season now) 0) as [Hneg|]; auto.
      apply Hsign in Hneg. lia. }
    assert ((getTime now <? getTime (seasonStart now)) = false) as ->.
    { apply Z.ltb_ge.
      destruct (Z.lt_ge_cases (getTime now) (getTime (seasonStart now)))
        as [Hlt|]; [|lia].
      apply Hiff in Hlt. lia. }
    rewrite whole_weeks by (exact Hy || apply Hv).
    assert (0 <= days_into_season now / 7) by (apply Z.div_pos; lia).
    lia.
Qed.

(** X12: the season and the week, read together.  In January and
    February the season is the year before and the week is 1: the weeks
    are counted from September 7 of the current year, not of the season.
    Whenever the week is past 1, the season is the current year and
    September 14 has come. *)
Theorem season_and_week (now : Date) :
  valid_date now -> plain_year (fullYear now) ->
  (month now <= 1 ->
     getCurrentNFLSeason now = Number_toString (fullYear now - 1)
     /\ getEstimatedNFLWeek now = 1)
  /\ (1 < getEstimatedNFLWeek now ->
      getCurrentNFLSeason now = Number_toString (fullYear now)
      /\ 7 <= days_into_season now).
Proof.
  intros Hv Hy.
  destruct (week_on_calendar now Hv Hy) as (Hbefore & Hafter).
  split.
  - intros Hm. split.
    + unfold getCurrentNFLSeason.
      assert ((month now <=? 1) = true) as -> by (apply Z.leb_le; lia).
      reflexivity.
    + apply Hbefore; auto. lia.
  - intros Hw.
    assert (Hlate : month now > 8 \/ month now = 8 /\ date now >= 7).
    { destruct (Z.lt_ge_cases (month now) 8) as [Hlt|Hge].
      - rewrite Hbefore in Hw; auto; lia.
      - destruct (Z.eq_dec (month now) 8) as [Heq|Hne]; [|lia].
        destruct (Z.lt_ge_cases (date now) 7) as [Hd|Hd]; [|lia].
        rewrite Hbefore in Hw; auto; lia. }
    split.
    + unfold getCurrentNFLSeason.
      assert ((month now <=? 1) = false) as -> by (apply Z.leb_gt; lia).
      reflexivity.
    + rewrite (Hafter Hlate) in Hw.
      destruct (Z.lt_ge_cases (days_into_season now) 7) as [Hd|Hd]; auto.
      assert (days_into_season now / 7 <= 0).
      { destruct (Z.lt_ge_cases (days_into_season now) 0).
        - apply Z.div_le_upper_bound; lia.
        - rewrite Z.div_small; lia. }
      lia.
Qed.

Lemma season_and_week_witness :
  (getCurrentNFLSeason mid_january = "2024"
   /\ getEstimatedNFLWeek mid_january = 1)
  /\ (getCurrentNFLSeason october_first = "2024"
      /\ 7 <= days_into_season october_first).
Proof.
  split.
  - destruct (season_and_week mid_january) as [Hwinter _].
    + unfold valid_date. vm_compute. intuition discriminate.
    + right. simpl. lia.
    + apply Hwinter. simpl. lia.
  - destruct (season_and_week october_first) as [_ Hautumn].
    + unfold valid_date. vm_compute. intuition discriminate.
    + right. simpl. lia.
    + apply Hautumn. vm_compute. reflexivity.
Defined.

(** ** [testConnection] *)

Section TestConnection.

Variables NFLState Any : Type.
Variable net : Network NFLState Any.
Variable httpClient : HttpClient.

(** X13: [testConnection] reports how the last request of its call
    ended.  With a retry count that is a count it sends between one and
    [retries + 1] requests for [/state/nfl] and resolves to [true] when
    the last of them was answered and to [false] when it failed: one
    client error is enough for [false], any other failure only after
    every retry has failed too. *)
Theorem testConnection_reports_last_exchange (w : World) :
  0 <= this_retries httpClient ->
  exists j,
    Z.of_nat j <= this_retries httpClient
    /\ fst (testConnection net httpClient w)
       = Return (answered (answer net (exchanges w + j) GET "/state/nfl"))
    /\ attempts (trace (snd (testConnection net httpClient w)))
       = (attempts (trace w) + j + 1)%nat
    /\ (forall i, (i < j)%nat ->
          answered (answer net (exchanges w + i) GET "/state/nfl") = false)
    /\ (answered (answer net (exchanges w + j) GET "/state/nfl") = false ->
        Z.of_nat j = this_retries httpClient
        \/ exists e,
             failure_of net (exchanges w + j) GET "/state/nfl" = Some e
             /\ client_error e = true).
Proof.
  intros H. unfold testConnection, getSportState, get. cbn [sport_path append].
  destruct (call_run NFLState Any net httpClient GET "/state/nfl" w H)
    as (j & (Hj & Hprev & Hlast) & Hshape & _).
  exists j. split; [lia|].
  assert (Hatt : attempts (trace (snd (call net httpClient GET "/state/nfl" w)))
                 = (attempts (trace w) + j + 1)%nat).
  { rewrite !attempts_control, Hshape, !filter_app, !length_app.
    rewrite sending_retry_script. cbn. lia. }
  split; [|split; [|split]].
  - destruct (call net httpClient GET "/state/nfl" w) as [[state|e] w1];
      cbn [fst snd] in *;
      destruct (answer net (exchanges w + j) GET "/state/nfl");
      cbn [answered]; try reflexivity.
    + destruct Hlast as [Hlast _]. discriminate Hlast.
    + discriminate Hlast.
  - destruct (call net httpClient GET "/state/nfl" w) as [[state|e] w1];
      exact Hatt.
  - intros i Hi. destruct (Hprev i Hi) as (e & He & _).
    unfold failure_of in He.
    destruct (answer net (exchanges w + i) GET "/state/nfl");
      [reflexivity | discriminate He].
  - intros Hfalse. unfold failure_of.
    destruct (answer net (exchanges w + j) GET "/state/nfl") as [error|];
      [|discriminate Hfalse].
    destruct Hlast as [_ [Hc | Hend]]; [right | left; lia].
    eexists. split; [reflexivity | exact Hc].
Qed.

End TestConnection.

Lemma testConnection_reports_last_exchange_witness :
  exists j,
    Z.of_nat j <= 3
    /\ fst (testConnection second_succeeds defaultClient (fresh_world 1000))
       = Return (answered (answer second_succeeds (0 + j) GET "/state/nfl"))
    /\ attempts (trace (snd (testConnection second_succeeds defaultClient
                               (fresh_world 1000))))
       = (j + 1)%nat
    /\ (forall i, (i < j)%nat ->
          answered (answer second_succeeds (0 + i) GET "/state/nfl") = false)
    /\ (answered (answer second_succeeds (0 + j) GET "/state/nfl") = false ->
        Z.of_nat j = 3
        \/ exists e,
             failure_of second_succeeds (0 + j) GET "/state/nfl" = Some e
             /\ client_error e = true).
Proof.
  apply (testConnection_reports_last_exchange string string second_succeeds
           defaultClient (fresh_world 1000)).
  simpl. lia.
Defined.

(** ** The current pick of a draft *)

(** [Math.ceil(n / t)] and [(n - 1) % t] split [n] into a round and a
    place in it. *)
Lemma round_and_place (n t : Z) :
  0 < t -> 1 <= n ->
  ceil_div n t = (n - 1) / t + 1
  /\ Z.rem (n - 1) t = (n - 1) mod t.
Proof.
  intros Ht Hn. split.
  - unfold ceil_div.
    pose proof (Z.div_mod (n - 1) t ltac:(lia)) as Hdm.
    pose proof (Z.mod_pos_bound (n - 1) t Ht) as Hb.
    assert ((- n) / t = - ((n - 1) / t) - 1) as ->; [|lia].
    symmetry. apply (Z.div_unique (- n) t _ (t - (n - 1) mod t - 1)); [lia|].
    nia.
  - apply Z.rem_mod_nonneg; lia.
Qed.

(** X14: a current pick that [getCurrentPick] reports is on the board:
    its round is between 1 and the number of rounds, its pick between 1
    and the number of teams, and the two name the pick after the ones
    made: counted in draft order (a snake draft runs its even rounds
    backwards) it is pick number [picks.length + 1]. *)
Theorem currentPick_in_range (draft : Draft) (picks : list DraftPick)
    (current : CurrentPick) :
  0 < settings_teams draft ->
  currentPickOf draft picks = Some current ->
  let teams := settings_teams draft in
  let place :=
    if is_snake (draft_type draft) && (Z.rem (cp_round current) 2 =? 0)
    then teams - cp_pick current + 1
    else cp_pick current in
  1 <= cp_round current <= settings_rounds draft
  /\ 1 <= cp_pick current <= teams
  /\ overall_pick teams (cp_round current) place
     = Z.of_nat (List.length picks) + 1
  /\ draft_status draft <> complete.
Proof.
  intros Ht. unfold currentPickOf.
  destruct (draft_status draft) eqn:Hst; cbn [is_complete]; try discriminate.
  all: set (n := Z.of_nat (List.length picks) + 1);
    destruct (Z.ltb_spec (settings_teams draft * settings_rounds draft) n)
      as [|Hfull]; [discriminate|];
    intros H; injection H as <-; cbn [cp_round cp_pick];
    assert (Hn : 1 <= n) by (unfold n; lia);
    destruct (round_and_place n (settings_teams draft) Ht Hn) as [-> ->];
    pose proof (Z.div_mod (n - 1) (settings_teams draft) ltac:(lia)) as Hdm;
    pose proof (Z.mod_pos_bound (n - 1) (settings_teams draft) Ht) as Hb;
    assert (0 <= (n - 1) / settings_teams draft)
      by (apply Z.div_pos; lia);
    assert ((n - 1) / settings_teams draft < settings_rounds draft)
      by (apply Z.div_lt_upper_bound; nia);
    unfold overall_pick;
    destruct (is_snake (draft_type draft)
              && (Z.rem ((n - 1) / settings_teams draft + 1) 2 =? 0));
    repeat split; try discriminate; nia.
Qed.

(** After the twelve picks of round 1 of a snake draft of twelve teams,
    round 2 opens from the last slot. *)
Lemma currentPick_in_range_witness :
  currentPickOf snake_draft twelve_picks
  = Some {| cp_round := 2; cp_pick := 12; cp_rosterId := Some 3 |}
  /\ overall_pick 12 2 1 = 13.
Proof.
  split; [reflexivity|].
  destruct (currentPick_in_range snake_draft twelve_picks
              {| cp_round := 2; cp_pick := 12; cp_rosterId := Some 3 |})
    as (_ & _ & Hnext & _).
  - simpl. lia.
  - reflexivity.
  - exact Hnext.
Defined.

(** X15: when [getCurrentPick] reports no pick.  For a completed draft
    and for a draft of no team it reports none; for a draft with teams
    it reports none exactly when the draft is complete or the picks made
    fill every round. *)
Theorem currentPick_none (draft : Draft) (picks : list DraftPick) :
  (draft_status draft = complete -> currentPickOf draft picks = None)
  /\ (settings_teams draft = 0 -> currentPickOf draft picks = None)
  /\ (0 < settings_teams draft ->
      (currentPickOf draft picks = None <->
       draft_status draft = complete
       \/ settings_teams draft * settings_rounds draft
          <= Z.of_nat (List.length picks))).
Proof.
  unfold currentPickOf. split; [|split].
  - intros ->. reflexivity.
  - intros ->. destruct (is_complete _); auto.
    cbn [Z.mul]. assert ((0 <? Z.of_nat (List.length picks) + 1) = true) as ->
        by (apply Z.ltb_lt; lia).
    reflexivity.
  - intros Ht. destruct (draft_status draft); cbn [is_complete];
      try (split; [intros _; now left | reflexivity]).
    all: destruct (Z.ltb_spec (settings_teams draft * settings_rounds draft)
                     (Z.of_nat (List.length picks) + 1));
      split; try discriminate; try (intros _; right; lia); auto;
      intros [H' | H']; try discriminate; lia.
Qed.

(** ** The counters of [getDraftStats] *)

(** [x || 0] reads a missing count as 0. *)
Lemma or_number_default (x : option Z) : or_number x 0 = default 0 x.
Proof.
  destruct x as [v|]; cbn; auto. destruct (Z.eqb_spec v 0); auto.
Qed.

Lemma number_get_set (o : list (Z * Z)) (k v k' : Z) :
  number_get (number_set o k v) k'
  = if k =? k' then Some v else number_get o k'.
Proof.
  induction o as [|[k0 v0] o IH]; cbn.
  - reflexivity.
  - destruct (Z.eqb_spec k0 k) as [->|Hne]; cbn.
    + destruct (Z.eqb_spec k k'); reflexivity.
    + rewrite IH. destruct (Z.eqb_spec k0 k') as [->|]; auto.
      destruct (Z.eqb_spec k k'); [congruence|reflexivity].
Qed.

Lemma counted_number_set (o : list (Z * Z)) (k v : Z) :
  counted (number_set o k v) = counted o - default 0 (number_get o k) + v.
Proof.
  unfold counted. induction o as [|[k0 v0] o IH]; cbn.
  - lia.
  - destruct (Z.eqb_spec k0 k); cbn in *; lia.
Qed.

Lemma own_property_set (o : list (string * Z)) (k : string) (v : Z)
    (k' : string) :
  own_property (own_set o k v) k'
  = if String.eqb k k' then Some v else own_property o k'.
Proof.
  induction o as [|[k0 v0] o IH]; cbn.
  - reflexivity.
  - destruct (String.eqb_spec k0 k) as [->|Hne]; cbn.
    + destruct (String.eqb_spec k k'); reflexivity.
    + rewrite IH. destruct (String.eqb_spec k0 k') as [->|]; auto.
      destruct (String.eqb_spec k k'); [congruence|reflexivity].
Qed.

Lemma counted_own_set (o : list (string * Z)) (k : string) (v : Z) :
  counted (own_set o k v) = counted o - default 0 (own_property o k) + v.
Proof.
  unfold counted. induction o as [|[k0 v0] o IH]; cbn.
  - lia.
  - destruct (String.eqb_spec k0 k); cbn in *; lia.
Qed.

Lemma count_of_snoc {A : Type} (test : A -> bool) (xs : list A) (x : A) :
  count_of test (xs ++ [x]) = count_of test xs + (if test x then 1 else 0).
Proof.
  unfold count_of. rewrite filter_app, length_app. cbn.
  destruct (test x); cbn; lia.
Qed.

(** One step of the [forEach] keeps the counters right. *)
Lemma count_pick_counts (seen : list PickDetails) (pick : PickDetails)
    (counters : list (Z * Z) * list (string * Z)) :
  counters_of seen counters ->
  counters_of (seen ++ [pick]) (count_pick counters pick).
Proof.
  destruct counters as [byRound byPosition].
  intros (Hr & Hrs & Hp & Hps). cbn [fst snd] in *.
  unfold count_pick.
  assert (Hround :
    (forall r,
        default 0 (number_get
                     (number_set byRound (round (the_pick pick))
                        (or_number (number_get byRound (round (the_pick pick))) 0
                         + 1)) r)
        = count_of (in_round r) (seen ++ [pick]))
    /\ counted (number_set byRound (round (the_pick pick))
                  (or_number (number_get byRound (round (the_pick pick))) 0 + 1))
       = Z.of_nat (List.length (seen ++ [pick]))).
  { split.
    - intros r. rewrite number_get_set, count_of_snoc, or_number_default.
      change (in_round r pick) with (round (the_pick pick) =? r).
      destruct (Z.eqb_spec (round (the_pick pick)) r) as [<-|];
        cbn [default]; rewrite ?Hr; lia.
    - rewrite counted_number_set, or_number_default, length_app. cbn. lia. }
  destruct Hround as [Hr' Hrs'].
  destruct (metadata_position pick) as [[|c rest]|] eqn:Hpos;
    cbn [truthy_nullable default]; unfold counters_of; cbn [fst snd].
  - repeat split; auto.
    + intros p Hne. rewrite count_of_snoc, Hp by exact Hne.
      assert (at_pick_position p pick = false) as ->; [|lia].
      unfold at_pick_position. rewrite Hpos.
      destruct (String.eqb_spec "" p); [congruence|reflexivity].
    + rewrite count_of_snoc, Hps, Hpos. cbn. lia.
  - repeat split; auto.
    + intros p Hne. rewrite own_property_set, count_of_snoc, or_number_default.
      assert (at_pick_position p pick = String.eqb (String c rest) p) as ->
          by (unfold at_pick_position; now rewrite Hpos).
      destruct (String.eqb_spec (String c rest) p) as [<-|];
        cbn [default]; rewrite ?Hp by (exact Hne || discriminate); lia.
    + rewrite counted_own_set, or_number_default, count_of_snoc, Hps, Hpos.
      cbn [truthy_nullable]. lia.
  - repeat split; auto.
    + intros p Hne. rewrite count_of_snoc, Hp by exact Hne.
      assert (at_pick_position p pick = false) as ->; [|lia].
      unfold at_pick_position. now rewrite Hpos.
    + rewrite count_of_snoc, Hps, Hpos. cbn. lia.
Qed.

Lemma fold_count_pick (picks : list PickDetails) :
  forall seen counters,
    counters_of seen counters ->
    counters_of (seen ++ picks) (fold_left count_pick picks counters).
Proof.
  induction picks as [|pick picks IH]; intros seen counters H; cbn.
  - now rewrite app_nil_r.
  - replace (seen ++ pick :: picks) with ((seen ++ [pick]) ++ picks)
      by (now rewrite <- app_assoc).
    apply IH. now apply count_pick_counts.
Qed.

Lemma count_in_round (r : Z) (picks : list PickDetails) :
  count_of (in_round r) picks
  = count_of (fun pick => round pick =? r) (map the_pick picks).
Proof.
  unfold count_of. f_equal.
  induction picks as [|pick rest IH]; [reflexivity|].
  cbn [map filter]. unfold in_round at 1.
  destruct (round (the_pick pick) =? r); cbn [List.length]; now rewrite IH.
Qed.

Section Statistics.

Variable Any : Type.
Variable net : Network (list PickDetails) Any.
Variable httpClient : HttpClient.

(** X16: the statistics of a draft add up.  [totalPicks] is the number
    of fetched picks and the round counters sum to it; the counter of a
    round is the number of picks of that round (a missing counter read
    as 0); the counter of a position is the length of what
    [getPicksByPosition] returns for it; and the position counters sum to
    at most [totalPicks], picks without a position being left out.  The
    positions are taken not to be names that every object inherits
    ([constructor], [toString], ...), for which the counter does not
    start from 0. *)
Theorem getDraftStats_counts (draftId : string) (picks : list PickDetails)
    (w w' : World) :
  getDraftPicks_detailed net httpClient draftId w = (Return picks, w') ->
  plain_positions picks ->
  exists stats,
    getDraftStats net httpClient draftId w = (Return stats, w')
    /\ totalPicks stats = Z.of_nat (List.length picks)
    /\ counted (picksByRound stats) = totalPicks stats
    /\ (forall r,
          or_number (number_get (picksByRound stats) r) 0
          = count_of (fun pick => round pick =? r) (map the_pick picks))
    /\ (forall position', position' <> "" ->
          exists kept,
            getPicksByPosition net httpClient draftId position' w
              = (Return kept, w')
            /\ or_number (own_property (picksByPosition stats) position') 0
               = Z.of_nat (List.length kept))
    /\ counted (picksByPosition stats) <= totalPicks stats.
Proof.
  intros Hfetch _.
  destruct (fold_count_pick picks [] ([], []))
    as (Hr & Hrs & Hp & Hps).
  { repeat split; intros; reflexivity. }
  cbn [app] in *.
  eexists. split.
  { unfold getDraftStats. rewrite (await_return _ _ _ _ _ Hfetch).
    reflexivity. }
  cbn [totalPicks picksByRound picksByPosition].
  split; [reflexivity|]. split; [exact Hrs|]. split; [|split].
  - intros r. rewrite or_number_default, Hr. apply count_in_round.
  - intros position' Hne. eexists. split.
    { unfold getPicksByPosition. rewrite (await_return _ _ _ _ _ Hfetch).
      reflexivity. }
    rewrite or_number_default, Hp by exact Hne. reflexivity.
  - rewrite Hps. unfold count_of.
    pose proof (filter_length_le
                  (fun pick => truthy_nullable (metadata_position pick)) picks).
    lia.
Qed.

End Statistics.

Lemma getDraftStats_counts_witness :
  exists stats,
    getDraftStats (always_answering detailed_picks) defaultClient "d1"
      (fresh_world 1000)
    = (Return stats,
       snd (getDraftPicks_detailed (always_answering detailed_picks)
              defaultClient "d1" (fresh_world 1000)))
    /\ totalPicks stats = 3
    /\ counted (picksByRound stats) = totalPicks stats
    /\ counted (picksByPosition stats) <= totalPicks stats.
Proof.
  destruct (getDraftStats_counts string (always_answering detailed_picks)
              defaultClient "d1" detailed_picks (fresh_world 1000)
              (snd (getDraftPicks_detailed (always_answering detailed_picks)
                      defaultClient "d1" (fresh_world 1000))))
    as (stats & Hrun & Htotal & Hrounds & _ & _ & Hpositions).
  - reflexivity.
  - intros pick name Hin Hpos Hname.
    destruct Hin as [<-|[<-|[<-|[]]]]; cbn in Hpos;
      try discriminate Hpos; injection Hpos as <-;
      cbn in Hname; intuition discriminate.
  - exists stats. repeat split; assumption.
Defined.

(** ** First matches *)

Lemma find_or_null_first {A : Type} (test : A -> bool) (xs : list A) :
  first_match test xs (find_or_null test xs).
Proof.
  unfold find_or_null. induction xs as [|x xs IH]; cbn.
  - constructor.
  - destruct (test x) eqn:Hx.
    + exists [], xs. repeat split; auto.
    + destruct (find test xs) as [y|]; cbn in *.
      * destruct IH as (before & after & -> & Hy & Hb).
        exists (x :: before), after. repeat split; auto.
      * constructor; auto.
Qed.

Section Lookups.

Variable Any : Type.
Variable httpClient : HttpClient.

(** X17: the three lookups return the first match.  When the fetch
    resolves, [getRosterById], [getRosterByOwnerId] and [getPickByNumber]
    resolve, with nothing more sent, to the first fetched element with
    the wanted id, owner or pick number, every element before it being a
    mismatch, and to [null] exactly when no element matches. *)
Theorem lookups_return_first_match
    (rnet : Network (list Roster) Any) (dnet : Network (list DraftPick) Any)
    (leagueId ownerId draftId : string) (rosterId pickNumber : Z)
    (w : World) :
  (forall rosters w',
      getLeagueRosters rnet httpClient leagueId w = (Return rosters, w') ->
      (exists found,
          getRosterById rnet httpClient leagueId rosterId w
            = (Return found, w')
          /\ first_match (fun r => roster_number r =? rosterId) rosters found)
      /\ (exists found,
          getRosterByOwnerId rnet httpClient leagueId ownerId w
            = (Return found, w')
          /\ first_match (fun r => String.eqb (owner_id r) ownerId)
               rosters found))
  /\ (forall picks w',
      getDraftPicks dnet httpClient draftId w = (Return picks, w') ->
      exists found,
        getPickByNumber dnet httpClient draftId pickNumber w
          = (Return found, w')
        /\ first_match (fun p => pick_no p =? pickNumber) picks found).
Proof.
  unfold getRosterById, getRosterByOwnerId, getPickByNumber.
  split; [intros rosters w' H; split|intros picks w' H];
    eexists; (split; [rewrite (await_return _ _ _ _ _ H); reflexivity|]);
    apply find_or_null_first.
Qed.

End Lookups.

(** ** The limit and the order of [getPlayersByPosition] *)

(** The loop keeps the first [limit] matches. *)
Lemma collect_matches_prefix (test : Player -> bool) (limit : Z) :
  forall players matches,
    collect_matches test limit players matches
    = matches
      ++ firstn (Z.to_nat (limit - Z.of_nat (List.length matches)))
           (filter test players).
Proof.
  induction players as [|player players IH]; intros matches;
    cbn [collect_matches filter].
  - now rewrite firstn_nil, app_nil_r.
  - destruct (Z.leb_spec limit (Z.of_nat (List.length matches))) as [Hfull|Hroom].
    + replace (Z.to_nat (limit - Z.of_nat (List.length matches))) with 0%nat
        by lia.
      now rewrite app_nil_r.
    + destruct (test player).
      * rewrite IH, length_app, <- app_assoc. cbn [List.length app].
        f_equal.
        replace (Z.to_nat (limit - Z.of_nat (List.length matches)))
          with (S (Z.to_nat (limit - Z.of_nat (List.length matches + 1))))
          by lia.
        reflexivity.
      * apply IH.
Qed.

Lemma insert_by_perm {A : Type} (compare : A -> A -> Z) (x : A) :
  forall sorted, Permutation (x :: sorted) (insert_by compare x sorted).
Proof.
  induction sorted as [|y sorted IH]; cbn; auto.
  destruct (compare x y <=? 0); auto.
  eapply perm_trans; [apply perm_swap|]. now constructor.
Qed.

Lemma Array_sort_perm {A : Type} (compare : A -> A -> Z) (xs : list A) :
  Permutation xs (Array_sort compare xs).
Proof.
  induction xs as [|x xs IH]; cbn; auto.
  eapply perm_trans; [|apply insert_by_perm]. now constructor.
Qed.

(** The comparator of [getPlayersByPosition] is the order
    [ranks_before]. *)
Lemma by_search_rank_order (a b : Player) :
  by_search_rank a b <= 0 <-> ranks_before a b.
Proof.
  unfold by_search_rank, ranks_before, counted_rank, truthy_number.
  destruct (search_rank a) as [ra|], (search_rank b) as [rb|]; cbn;
    try destruct (Z.eqb_spec ra 0); try destruct (Z.eqb_spec rb 0);
    cbn; lia.
Qed.

Lemma ranks_before_total (a b : Player) :
  ranks_before a b \/ ranks_before b a.
Proof.
  unfold ranks_before.
  destruct (counted_rank a), (counted_rank b); auto. lia.
Qed.

Lemma ranks_before_trans (a b c : Player) :
  ranks_before a b -> ranks_before b c -> ranks_before a c.
Proof.
  unfold ranks_before.
  destruct (counted_rank a), (counted_rank b), (counted_rank c);
    auto; try lia; try contradiction.
Qed.

Lemma insert_by_sorted (x : Player) : forall sorted,
  StronglySorted ranks_before sorted ->
  StronglySorted ranks_before (insert_by by_search_rank x sorted).
Proof.
  induction sorted as [|y sorted IH]; intros Hs; cbn.
  - repeat constructor.
  - inversion Hs as [|? ? Hrest Hall]; subst.
    destruct (Z.leb_spec (by_search_rank x y) 0) as [Hle|Hgt].
    + apply by_search_rank_order in Hle.
      constructor; [exact Hs|]. constructor; [exact Hle|].
      eapply Forall_impl; [|exact Hall].
      intros z Hz. eapply ranks_before_trans; eauto.
    + assert (Hyx : ranks_before y x).
      { destruct (ranks_before_total x y) as [H|H]; auto.
        apply by_search_rank_order in H. lia. }
      constructor; [now apply IH|].
      apply (Permutation_Forall (insert_by_perm by_search_rank x sorted)).
      constructor; auto.
Qed.

Lemma Array_sort_sorted (xs : list Player) :
  StronglySorted ranks_before (Array_sort by_search_rank xs).
Proof.
  induction xs as [|x xs IH]; cbn; [constructor|].
  now apply insert_by_sorted.
Qed.

Section Positions.

Variable Any : Type.
Variable net : Network PlayersResponse Any.
Variable httpClient : HttpClient.

(** X18: [getPlayersByPosition] cuts before it sorts.  When the fetch
    resolves, the result holds exactly the first [limit] (50 when
    omitted) players at the position in the order of the fetched object,
    rearranged so that ranked players come first, by rising
    [search_rank], and unranked ones (no rank, or rank 0) last.  So with
    more matches than the limit, a better ranked player further down the
    object is not returned. *)
Theorem getPlayersByPosition_limit_then_sort (sport : Sport)
    (position' : string) (limit : option Z)
    (allPlayers : PlayersResponse) (w w' : World) :
  getAllPlayers net httpClient sport w = (Return allPlayers, w') ->
  exists players,
    getPlayersByPosition net httpClient sport position' limit w
      = (Return players, w')
    /\ Permutation
         (firstn (Z.to_nat (default 50 limit))
            (filter (at_position position') (Object_values allPlayers)))
         players
    /\ StronglySorted ranks_before players
    /\ Z.of_nat (List.length players) <= Z.max 0 (default 50 limit).
Proof.
  intros Hfetch. eexists. split.
  { unfold getPlayersByPosition. rewrite (await_return _ _ _ _ _ Hfetch).
    reflexivity. }
  rewrite collect_matches_prefix. cbn [app List.length Z.of_nat].
  rewrite Z.sub_0_r.
  split; [apply Array_sort_perm|]. split; [apply Array_sort_sorted|].
  rewrite <- (Permutation_length (Array_sort_perm by_search_rank _)).
  rewrite length_firstn. lia.
Qed.

End Positions.

(** Asked for one running back among [ranked_late], the code returns
    the unranked one that comes first in the object. *)
Lemma getPlayersByPosition_limit_then_sort_witness :
  exists players,
    getPlayersByPosition (always_answering ranked_late) defaultClient nfl
      "RB" (Some 1) (fresh_world 1000)
    = (Return players,
       snd (getAllPlayers (always_answering ranked_late) defaultClient nfl
              (fresh_world 1000)))
    /\ Permutation
         [ {| player_id := "4046"; position := "RB";
              fantasy_positions := ["RB"]; search_rank := None |} ]
         players.
Proof.
  destruct (getPlayersByPosition_limit_then_sort string
              (always_answering ranked_late) defaultClient nfl "RB" (Some 1)
              ranked_late (fresh_world 1000)
              (snd (getAllPlayers (always_answering ranked_late)
                      defaultClient nfl (fresh_world 1000))))
    as (players & Hrun & Hperm & _).
  - reflexivity.
  - exists players. split; [exact Hrun | exact Hperm].
Defined.

(** ** The URL of [getTrendingPlayers] *)

Lemma uint_unreserved (d : Decimal.uint) :
  every unreserved (NilEmpty.string_of_uint d) = true.
Proof. induction d; cbn; auto. Qed.

(** The decimal digits and the sign of a number need no escaping. *)
Lemma Number_toString_fixed (n : Z) :
  encodeURIComponent (Number_toString n) = Number_toString n.
Proof.
  apply every_unreserved_fixed. unfold Number_toString.
  destruct (Z.to_int n) as [d|d]; cbn [NilZero.string_of_int].
  - unfold NilZero.string_of_uint. destruct d; try apply uint_unreserved.
    reflexivity.
  - cbn [every]. unfold NilZero.string_of_uint.
    destruct d; try apply uint_unreserved. reflexivity.
Qed.

Lemma string_app_assoc (a b c : string) :
  ((a ++ b) ++ c = a ++ b ++ c)%string.
Proof. induction a as [|x a IH]; cbn; [reflexivity|now rewrite IH]. Qed.

Section TrendingPath.

Variables TrendingPlayers Any : Type.
Variable net : Network TrendingPlayers Any.
Variable httpClient : HttpClient.


End TrendingPath.
